(** * cuda_utils.linalg: PyCUDA-based linear algebra functions

    A shallow embedding of [src/cuda_utils/linalg.py].  The Python
    functions run against a GPU: they allocate and free device buffers,
    launch small CUDA kernels generated from text templates, and call the
    CULA and CUBLAS routines.  Here the device is an explicit state (a heap
    of buffers and a log of the calls issued), every function of the module
    is a computation in a state-and-exception monad over it, and the three
    kernels are functions run once per thread of the launch grid.

    The state is what the statements of the module make of the device.
    What lies outside the module is a parameter: the arithmetic of the
    device, the CULA and CUBLAS routines, PyCUDA's power and the choice of
    the launch geometry.

    A buffer is freed when the module calls [gpudata.free()], and when the
    last reference to its array goes: PyCUDA frees the allocation of a
    [GPUArray] that Python reclaims.  The model writes the second out where
    a function of the module returns to a caller that asked for arrays and
    leaves arrays of its own behind, which is [pinv] with its seven
    intermediate arrays.  The caller is taken to hold its own references to
    the arguments, and a function that raises releases nothing on the way
    out, the traceback holding its frame.  The two one-cell arrays that
    [svd] allocates in place of U and VT when [compute_uv] is false are left
    in the heap. *)

From Stdlib Require Import NArith ZArith String List PrimFloat Lia.
From stdpp Require Import base gmap list strings.

Local Open Scope string_scope.
Local Open Scope list_scope.
Local Open Scope N_scope.

(** ** Element types and elements *)

(** The numpy element types.  The module knows the first four; the others
    stand for the rest of numpy's types, which it rejects. *)
Inductive dtype :=
  | float32 | float64 | complex64 | complex128
  | float16 | int32 | int64 | uint8.

#[global] Instance dtype_eq_dec : EqDecision dtype.
Proof. solve_decision. Defined.

(** [d in [t1, t2, ...]] of Python. *)
Definition dtype_in (d : dtype) (l : list dtype) : bool :=
  existsb (fun t => bool_decide (d = t)) l.

(** The floating-point numbers of the device.  Only what the module itself
    does with a number is needed: the constants 0.0 and 1.0, the sign flip
    of [cuConj], and the comparison that orders singular values. *)
Class Scalar := {
  scalar : Type;
  f0 : scalar;
  f1 : scalar;
  fneg : scalar -> scalar;
  fge : scalar -> scalar -> bool
}.

Section Linalg.

Context `{Sc : Scalar}.

(** One cell of a device buffer: a real number, a complex number, or
    whatever a freshly allocated buffer holds before it is written. *)
Inductive elem :=
  | Undef
  | Re (x : scalar)
  | Cx (re im : scalar).

#[global] Instance elem_inhabited : Inhabited elem := populate Undef.

(** [cuConj] / [cuConjf]: the imaginary part changes sign. *)
Definition cuConj (z : elem) : elem :=
  match z with
  | Cx re im => Cx re (fneg im)
  | other => other
  end.

(** ** Arrays, devices and launch geometry *)

(** A [GPUArray]: a handle on a device buffer with its shape and type. *)
Record GPUArray := mkGPUArray {
  gpudata : N;
  shape : list N;
  dtype_of : dtype
}.

(** [a_gpu.size]: the number of elements. *)
Definition size (a : GPUArray) : N := fold_right N.mul 1 (shape a).

Definition dim3 : Type := N * N * N.

(** Modelled from the spec: the device and [get_dev_attrs] of
    [cuda_utils.misc], which is not among the sources; the spec gives
    [deviceAttributes(device) -> (maxThreadsPerBlock, maxBlockDims,
    maxGridDims)]. *)
Record Device := mkDevice {
  max_threads_per_block : N;
  max_block_dim : dim3;
  max_grid_dim : dim3
}.

Definition get_dev_attrs (dev : Device) : N * dim3 * dim3 :=
  (max_threads_per_block dev, max_block_dim dev, max_grid_dim dev).

(** [max(max_grid_dim)] *)
Definition max3 (d : dim3) : N :=
  let '(x, y, z) := d in N.max (N.max x y) z.

(** The external routines.  CULA's [gesvd] and CUBLAS's [gemm] take the
    contents of the buffers they are pointed at and give back a status and
    the contents they leave behind, cell for cell ([gesvd]: A, S, U and VT
    in this order; [gemm]: C).  [pow_kernel] is the elementwise power of PyCUDA's
    [GPUArray], and [select_block_grid_sizes] is the geometry chooser of
    [cuda_utils.misc]; neither is among the sources. *)
Class Backend := {
  culaDeviceSgesvd : string -> string -> N -> N -> list elem -> N -> N -> N ->
                     Z * (list elem * list elem * list elem * list elem);
  culaDeviceCgesvd : string -> string -> N -> N -> list elem -> N -> N -> N ->
                     Z * (list elem * list elem * list elem * list elem);
  cublasSgemm : string -> string -> N -> N -> N -> elem -> list elem -> N ->
                list elem -> N -> elem -> list elem -> N -> Z * list elem;
  cublasDgemm : string -> string -> N -> N -> N -> elem -> list elem -> N ->
                list elem -> N -> elem -> list elem -> N -> Z * list elem;
  cublasCgemm : string -> string -> N -> N -> N -> elem -> list elem -> N ->
                list elem -> N -> elem -> list elem -> N -> Z * list elem;
  cublasZgemm : string -> string -> N -> N -> N -> elem -> list elem -> N ->
                list elem -> N -> elem -> list elem -> N -> Z * list elem;
  pow_kernel : elem -> elem -> elem;
  select_block_grid_sizes : Device -> list N -> dim3 * dim3
}.

Context `{Bk : Backend}.

(** ** The device state and the monad of the module's functions *)

(** What the module asks of the device, in the order it asks. *)
Inductive event :=
  | EvAlloc (p : N) (cells : N)
  | EvFree (p : N)
  | EvCompile (kernel : string)
  | EvLaunch (kernel : string) (block grid : dim3)
  | EvCall (routine : string).

(** Device memory maps the address of every live buffer to its contents;
    [next] is the address the next allocation gets. *)
Record device_state := mkState {
  mem : gmap N (list elem);
  next : N;
  trace : list event
}.

Inductive exn :=
  | ValueError (msg : string)
  | IndexError (msg : string)
  | LogicError (msg : string)
  | CompileError (msg : string)
  | culaError (status : Z)
  | cublasError (status : Z).

Inductive result (A : Type) :=
  | Ok (a : A)
  | Raise (e : exn).
Arguments Ok {A} a.
Arguments Raise {A} e.

Definition M (A : Type) : Type := device_state -> result A * device_state.

Definition ret {A} (a : A) : M A := fun st => (Ok a, st).

Definition raise {A} (e : exn) : M A := fun st => (Raise e, st).

Definition bind {A B} (c : M A) (k : A -> M B) : M B :=
  fun st =>
    match c st with
    | (Ok a, st') => k a st'
    | (Raise e, st') => (Raise e, st')
    end.

Notation "'let*' x ':=' c 'in' k" := (bind c (fun x => k))
  (at level 10, x pattern, c at level 100, k at level 200).
Notation "c ';;' k" := (bind c (fun _ => k))
  (at level 100, k at level 200, right associativity).

Definition log (e : event) : M unit :=
  fun st => (Ok tt, mkState (mem st) (next st) (trace st ++ [e])).

(** [gpuarray.empty(shape, dtype)]: a fresh buffer, its cells not yet
    written. *)
Definition empty (shp : list N) (dt : dtype) : M GPUArray :=
  fun st =>
    let p := next st in
    let cells := fold_right N.mul 1 shp in
    (Ok (mkGPUArray p shp dt),
     mkState (<[p := replicate (N.to_nat cells) Undef]> (mem st)) (p + 1)
             (trace st ++ [EvAlloc p cells])).

(** [gpudata.free()]: PyCUDA refuses to free an allocation twice. *)
Definition free (p : N) : M unit :=
  fun st =>
    match mem st !! p with
    | Some _ => (Ok tt, mkState (delete p (mem st)) (next st) (trace st ++ [EvFree p]))
    | None => (Raise (LogicError "device_allocation::free: invalid handle"), st)
    end.

(** What PyCUDA does when Python reclaims a [GPUArray]: the allocation is
    freed, unless [gpudata.free()] has freed it already. *)
Definition reclaim (a_gpu : GPUArray) : M unit :=
  fun st =>
    match mem st !! gpudata a_gpu with
    | Some _ => (Ok tt, mkState (delete (gpudata a_gpu) (mem st)) (next st)
                                (trace st ++ [EvFree (gpudata a_gpu)]))
    | None => (Ok tt, st)
    end.

(** The frame of a function that returns goes, and its local variables
    with it, in the order in which the function first assigns them. *)
Fixpoint reclaim_all (locals : list GPUArray) : M unit :=
  match locals with
  | [] => ret tt
  | a_gpu :: rest => reclaim a_gpu;; reclaim_all rest
  end.

(** The contents behind a device pointer; a pointer to no live buffer is
    reported as an error. *)
Definition load (p : N) : M (list elem) :=
  fun st =>
    match mem st !! p with
    | Some l => (Ok l, st)
    | None => (Raise (LogicError "invalid device pointer"), st)
    end.

Definition store (p : N) (l : list elem) : M unit :=
  fun st => (Ok tt, mkState (<[p := l]> (mem st)) (next st) (trace st)).

(** [a_gpu.shape[i]] *)
Definition shape_at (a : GPUArray) (i : nat) : M N :=
  match shape a !! i with
  | Some d => ret d
  | None => raise (IndexError "tuple index out of range")
  end.

(** Modelled from the spec: [culaCheckStatus] and [cublasCheckStatus] of
    the [cula] and [cublas] modules, which are not among the sources; any
    status other than success is raised. *)
Definition culaCheckStatus (status : Z) : M unit :=
  if Z.eqb status 0 then ret tt else raise (culaError status).

Definition cublasCheckStatus (status : Z) : M unit :=
  if Z.eqb status 0 then ret tt else raise (cublasError status).

(** ** Kernel launches *)

(** An [unsigned int] of the device: 32 bits, wrapping around. *)
Definition u32 (x : N) : N := x mod 2 ^ 32.

Definition Nrange (n : N) : list N := map N.of_nat (seq 0 (N.to_nat n)).

Definition range3 (d : dim3) : list dim3 :=
  let '(x, y, z) := d in
  flat_map (fun k => flat_map (fun j => map (fun i => (i, j, k)) (Nrange x)) (Nrange y))
           (Nrange z).

Record thread := mkThread {
  blockIdx : dim3;
  threadIdx : dim3
}.

(** Every thread of every block of a launch with [block=] and [grid=]. *)
Definition grid_threads (block grid : dim3) : list thread :=
  flat_map (fun b => map (fun t => mkThread b t) (range3 block)) (range3 grid).

(** The linear index all three kernels start with:
    [blockIdx.y*max_threads_per_block*max_blocks_per_grid +
     blockIdx.x*max_threads_per_block + threadIdx.x]. *)
Definition thread_idx (max_threads_per_block max_blocks_per_grid : N) (t : thread) : N :=
  let '(block_x, block_y, _) := blockIdx t in
  let '(thread_x, _, _) := threadIdx t in
  u32 (block_y * max_threads_per_block * max_blocks_per_grid
       + block_x * max_threads_per_block + thread_x).

(** The indices the threads of a launch compute, in launch order. *)
Definition launch_indices (dev : Device) (geometry : dim3 * dim3) : list N :=
  map (thread_idx (max_threads_per_block dev) (max3 (max_grid_dim dev)))
      (grid_threads (fst geometry) (snd geometry)).

(** [CONJ(x)] of the transpose template: [cuConj] under [USE_COMPLEX],
    the identity otherwise. *)
Definition CONJ (use_complex : bool) (x : elem) : elem :=
  if use_complex then cuConj x else x.

(** One thread of [__global__ void transpose(TYPE *odata, TYPE *idata,
    unsigned int N)].  [USE_DOUBLE] only selects the width of [TYPE].
    (A division by a zero [cols] is left to Rocq's [N.div].) *)
Definition transpose_kernel (use_double use_complex : bool)
    (max_threads_per_block max_blocks_per_grid cols rows : N)
    (idata : list elem) (N_ : N) (odata : list elem) (t : thread) : list elem :=
  let idx := thread_idx max_threads_per_block max_blocks_per_grid t in
  let ix := idx / cols in
  let iy := idx mod cols in
  if idx <? N_
  then <[N.to_nat (u32 (iy * rows + ix)) :=
           CONJ use_complex (idata !!! N.to_nat (u32 (ix * cols + iy)))]> odata
  else odata.

(** One thread of [__global__ void conj(COMPLEX *a, unsigned int N)]. *)
Definition conj_kernel (use_double : bool)
    (max_threads_per_block max_blocks_per_grid : N)
    (N_ : N) (a : list elem) (t : thread) : list elem :=
  let idx := thread_idx max_threads_per_block max_blocks_per_grid t in
  if idx <? N_
  then <[N.to_nat idx := cuConj (a !!! N.to_nat idx)]> a
  else a.

(** [np.float32(0.0)], [np.complex64(0.0)] and the like: the number zero
    of a type. *)
Definition zero_of (use_complex : bool) : elem :=
  if use_complex then Cx f0 f0 else Re f0.

(** One thread of [__global__ void diag(TYPE *v, TYPE *d, int N)], for
    [TYPE] float or double: the literal [0.0] of [d[idx] = 0.0] is stored as
    a real number.  There is no such kernel for a complex [TYPE], see
    [diag]. *)
Definition diag_kernel (use_double : bool)
    (max_threads_per_block max_blocks_per_grid cols : N)
    (v : list elem) (N_ : N) (d : list elem) (t : thread) : list elem :=
  let idx := thread_idx max_threads_per_block max_blocks_per_grid t in
  let ix := idx / cols in
  let iy := idx mod cols in
  if idx <? N_
  then if ix =? iy
       then <[N.to_nat idx := v !!! N.to_nat ix]> d
       else <[N.to_nat idx := Re f0]> d
  else d.

(** ** The functions of the module *)

Definition gesvd_routine : Type :=
  string -> string -> N -> N -> list elem -> N -> N -> N ->
  Z * (list elem * list elem * list elem * list elem).

Definition gemm_routine : Type :=
  string -> string -> N -> N -> N -> elem -> list elem -> N ->
  list elem -> N -> elem -> list elem -> N -> Z * list elem.

(** [cula_func(jobu, jobvt, m, n, a, lda, s, u, ldu, vt, ldvt)] on device
    pointers: the routine reads A and leaves A, S, U and VT behind. *)
Definition call_gesvd (cula_func : gesvd_routine) (jobu jobvt : string) (m n : N)
    (a : N) (lda : N) (s u : N) (ldu : N) (vt : N) (ldvt : N) : M Z :=
  let* a_buf := load a in
  let* _ := load s in
  let* _ := load u in
  let* _ := load vt in
  log (EvCall "gesvd");;
  let '(status, (a', s', u', vt')) := cula_func jobu jobvt m n a_buf lda ldu ldvt in
  store a a';;
  store s s';;
  store u u';;
  store vt vt';;
  ret status.

(** What [svd] returns: the triple, or S alone. *)
Inductive svd_result :=
  | SvdTriple (first second third : GPUArray)
  | SvdS (s_gpu : GPUArray).

Definition svd (a_gpu : GPUArray) (full_matrices compute_uv : bool) : M svd_result :=
  let real_dtype := float32 in
  let* cula_func :=
    if bool_decide (dtype_of a_gpu = complex64) then ret culaDeviceCgesvd
    else if bool_decide (dtype_of a_gpu = float32) then ret culaDeviceSgesvd
    else raise (ValueError "unsupported type") in
  let* (m, n) :=
    match rev (shape a_gpu) with
    | [m; n] => ret (m, n)
    | _ => raise (ValueError "wrong number of values to unpack")
    end in
  let lda := N.max 1 m in
  let* s_gpu := empty [N.min m n] real_dtype in
  let '(jobu, jobvt) :=
    if compute_uv
    then if full_matrices then ("A", "A") else ("S", "S")
    else ("N", "N") in
  let ldu := m in
  let* (ldu, u_gpu) :=
    if String.eqb jobu "A"
    then let* u_gpu := empty [ldu; m] (dtype_of a_gpu) in ret (ldu, u_gpu)
    else if String.eqb jobu "S"
    then let* u_gpu := empty [N.min m n; ldu] (dtype_of a_gpu) in ret (ldu, u_gpu)
    else let* u_gpu := empty [1; 1] (dtype_of a_gpu) in ret (1, u_gpu) in
  let* (ldvt, vt_gpu) :=
    if String.eqb jobvt "A"
    then let* vt_gpu := empty [n; n] (dtype_of a_gpu) in ret (n, vt_gpu)
    else if String.eqb jobvt "S"
    then let* vt_gpu := empty [n; N.min m n] (dtype_of a_gpu) in ret (N.min m n, vt_gpu)
    else let* vt_gpu := empty [1; 1] (dtype_of a_gpu) in ret (1, vt_gpu) in
  let* status := call_gesvd cula_func jobu jobvt m n (gpudata a_gpu) lda
                            (gpudata s_gpu) (gpudata u_gpu) ldu (gpudata vt_gpu) ldvt in
  culaCheckStatus status;;
  if compute_uv
  then ret (SvdTriple vt_gpu s_gpu u_gpu)
  else ret (SvdS s_gpu).

(** [cublas_func(transb, transa, m, n, k, alpha, b, lda, a, ldb, beta, c,
    ldc)] followed by [cublas._cublasGetError()]. *)
Definition call_gemm (cublas_func : gemm_routine) (transb transa : string) (m n k : N)
    (alpha : elem) (b : N) (lda : N) (a : N) (ldb : N) (beta : elem) (c : N) (ldc : N) : M Z :=
  let* b_buf := load b in
  let* a_buf := load a in
  let* c_buf := load c in
  log (EvCall "gemm");;
  let '(status, c') := cublas_func transb transa m n k alpha b_buf lda a_buf ldb beta c_buf ldc in
  store c c';;
  ret status.

Definition dot (a_gpu b_gpu : GPUArray) : M GPUArray :=
  let both (t : dtype) :=
    bool_decide (dtype_of a_gpu = t) && bool_decide (dtype_of b_gpu = t) in
  let* (cublas_func, alpha, beta) :=
    if both complex64 then ret (cublasCgemm, Cx f1 f0, Cx f0 f0)
    else if both float32 then ret (cublasSgemm, Re f1, Re f0)
    else if both complex128 then ret (cublasZgemm, Cx f1 f0, Cx f0 f0)
    else if both float64 then ret (cublasDgemm, Re f1, Re f0)
    else raise (ValueError "unsupported combination of input types") in
  let transa := "N" in
  let transb := "N" in
  let* m := shape_at b_gpu 1 in
  let* n := shape_at a_gpu 0 in
  let* k := shape_at b_gpu 0 in
  let lda := m in
  let ldb := k in
  let ldc := N.max 1 m in
  let* rows := shape_at a_gpu 0 in
  let* cols := shape_at b_gpu 1 in
  let* c_gpu := empty [rows; cols] (dtype_of a_gpu) in
  let* status := call_gemm cublas_func transb transa m n k alpha (gpudata b_gpu)
                           lda (gpudata a_gpu) ldb beta (gpudata c_gpu) ldc in
  cublasCheckStatus status;;
  ret c_gpu.

(** The loop of [mdot]: [out_gpu] is multiplied by the next argument, its
    buffer is freed, and the product takes its place. *)
Fixpoint mdot_loop (out_gpu : GPUArray) (rest : list GPUArray) : M GPUArray :=
  match rest with
  | [] => ret out_gpu
  | next_gpu :: rest' =>
      let* temp_gpu := dot out_gpu next_gpu in
      free (gpudata out_gpu);;
      mdot_loop temp_gpu rest'
  end.

Definition mdot (args : list GPUArray) : M GPUArray :=
  match args with
  | [] => raise (IndexError "tuple index out of range")
  | out_gpu :: rest => mdot_loop out_gpu rest
  end.

Definition transpose (a_gpu : GPUArray) (dev : Device) : M GPUArray :=
  if negb (dtype_in (dtype_of a_gpu) [float32; float64; complex64; complex128])
  then raise (ValueError "unrecognized type")
  else
    let use_double := dtype_in (dtype_of a_gpu) [float64; complex128] in
    let use_complex := dtype_in (dtype_of a_gpu) [complex64; complex128] in
    let '(max_threads_per_block, max_block_dim, max_grid_dim) := get_dev_attrs dev in
    let '(block_dim, grid_dim) := select_block_grid_sizes dev (shape a_gpu) in
    let max_blocks_per_grid := max3 max_grid_dim in
    let* cols := shape_at a_gpu 1 in
    let* rows := shape_at a_gpu 0 in
    log (EvCompile "transpose");;
    let* at_gpu := empty (rev (shape a_gpu)) (dtype_of a_gpu) in
    let* odata := load (gpudata at_gpu) in
    let* idata := load (gpudata a_gpu) in
    log (EvLaunch "transpose" block_dim grid_dim);;
    store (gpudata at_gpu)
          (fold_left (transpose_kernel use_double use_complex max_threads_per_block
                                       max_blocks_per_grid cols rows idata (u32 (size a_gpu)))
                     (grid_threads block_dim grid_dim) odata);;
    ret at_gpu.

Definition conj (a_gpu : GPUArray) (dev : Device) : M unit :=
  if dtype_in (dtype_of a_gpu) [float32; float64]
  then ret tt
  else
    let* use_double :=
      if bool_decide (dtype_of a_gpu = complex64) then ret false
      else if bool_decide (dtype_of a_gpu = complex128) then ret true
      else raise (ValueError "unsupported type") in
    let '(max_threads_per_block, max_block_dim, max_grid_dim) := get_dev_attrs dev in
    let '(block_dim, grid_dim) := select_block_grid_sizes dev (shape a_gpu) in
    let max_blocks_per_grid := max3 max_grid_dim in
    log (EvCompile "conj");;
    let* a := load (gpudata a_gpu) in
    log (EvLaunch "conj" block_dim grid_dim);;
    store (gpudata a_gpu)
          (fold_left (conj_kernel use_double max_threads_per_block max_blocks_per_grid
                                  (u32 (size a_gpu)))
                     (grid_threads block_dim grid_dim) a).

(** [SourceModule] compiles the text of the kernel when [diag] is called.
    With [use_complex] set, [TYPE] is [cuFloatComplex] or [cuDoubleComplex],
    a structure of two numbers, and [d[idx] = 0.0] assigns a [double] to it:
    the text does not compile and [SourceModule] raises [CompileError],
    before the result is allocated. *)
Definition diag (v_gpu : GPUArray) (dev : Device) : M GPUArray :=
  if negb (dtype_in (dtype_of v_gpu) [float32; float64; complex64; complex128])
  then raise (ValueError "unrecognized type")
  else
    let use_double := dtype_in (dtype_of v_gpu) [float64; complex128] in
    let use_complex := dtype_in (dtype_of v_gpu) [complex64; complex128] in
    let '(max_threads_per_block, max_block_dim, max_grid_dim) := get_dev_attrs dev in
    let '(block_dim, grid_dim) := select_block_grid_sizes dev (shape v_gpu) in
    let max_blocks_per_grid := max3 max_grid_dim in
    (if use_complex
     then raise (CompileError "nvcc compilation of kernel.cu failed")
     else log (EvCompile "diag"));;
    let* d_gpu := empty [size v_gpu; size v_gpu] (dtype_of v_gpu) in
    let* v := load (gpudata v_gpu) in
    let* d := load (gpudata d_gpu) in
    log (EvLaunch "diag" block_dim grid_dim);;
    store (gpudata d_gpu)
          (fold_left (diag_kernel use_double max_threads_per_block
                                  max_blocks_per_grid (size v_gpu) v (u32 (size d_gpu)))
                     (grid_threads block_dim grid_dim) d);;
    ret d_gpu.

(** [s_gpu **= e]: PyCUDA's elementwise power, in place. *)
Definition ipow (a_gpu : GPUArray) (e : elem) : M unit :=
  let* a := load (gpudata a_gpu) in
  log (EvCall "pow");;
  store (gpudata a_gpu) (map (fun x => pow_kernel x e) a).

(** [np.float32(-1)] *)
Definition minus_one : elem := Re (fneg f1).

(** [pinv] keeps its seven intermediate arrays in local variables to the
    end; they go with its frame when it returns, and the last reference to
    each with them. *)
Definition pinv (a_gpu : GPUArray) (dev : Device) : M GPUArray :=
  if negb (dtype_in (dtype_of a_gpu) [float32; complex64])
  then raise (ValueError "unsupported type")
  else
    conj a_gpu dev;;
    let* (u_gpu, s_gpu, vh_gpu) :=
      (let* r := svd a_gpu false true in
       match r with
       | SvdTriple u_gpu s_gpu vh_gpu => ret (u_gpu, s_gpu, vh_gpu)
       | SvdS _ => raise (ValueError "wrong number of values to unpack")
       end) in
    let* uh_gpu := transpose u_gpu dev in
    ipow s_gpu minus_one;;
    let* s_diag_gpu := diag s_gpu dev in
    let* v_gpu := transpose vh_gpu dev in
    let* suh_gpu := dot s_diag_gpu uh_gpu in
    let* a_inv := dot v_gpu suh_gpu in
    reclaim_all [u_gpu; s_gpu; vh_gpu; uh_gpu; s_diag_gpu; v_gpu; suh_gpu];;
    ret a_inv.

(** ** Notions the properties are stated with *)

(** [spec c st Q]: [Q] holds of the outcome of [c] started in [st]. *)
Definition spec {A} (c : M A) (st : device_state)
    (Q : result A -> device_state -> Prop) : Prop :=
  Q (fst (c st)) (snd (c st)).

Definition is_free (e : event) : bool :=
  match e with
  | EvFree _ => true
  | _ => false
  end.

(** From [st] to [st'] every live buffer stayed live, the log only grew,
    nothing was freed, and what was allocated on the way is still live. *)
Definition keeps (st st' : device_state) : Prop :=
  (forall p, is_Some (mem st !! p) -> is_Some (mem st' !! p)) /\
  (next st <= next st') /\
  exists evs,
    trace st' = trace st ++ evs /\
    Forall (fun e => is_free e = false) evs /\
    forall p n, In (EvAlloc p n) evs -> is_Some (mem st' !! p).

(** A computation is [quiet] when every run of it keeps the device so,
    whether it returns or raises. *)
Definition quiet {A} (c : M A) : Prop :=
  forall st, spec c st (fun _ st' => keeps st st').

(** [returns c st P]: started in [st], [c] returns a value and leaves a
    state that satisfy [P]. *)
Definition returns {A} (c : M A) (st : device_state)
    (P : A -> device_state -> Prop) : Prop :=
  exists a st', c st = (Ok a, st') /\ P a st'.

Definition live (st : device_state) (a : GPUArray) : Prop :=
  is_Some (mem st !! gpudata a).

Definition supported (d : dtype) : bool :=
  dtype_in d [float32; float64; complex64; complex128].

(** Every call to the routine reports success. *)
Definition gesvd_succeeds (f : gesvd_routine) : Prop :=
  forall jobu jobvt m n a lda ldu ldvt, fst (f jobu jobvt m n a lda ldu ldvt) = 0%Z.

Definition gemm_succeeds (f : gemm_routine) : Prop :=
  forall tb ta m n k alpha b lda a ldb beta c ldc,
    fst (f tb ta m n k alpha b lda a ldb beta c ldc) = 0%Z.

(** [raises c st e]: started in [st], [c] raises [e]. *)
Definition raises {A} (c : M A) (st : device_state) (e : exn) : Prop :=
  exists st', c st = (Raise e, st').

Definition svd_supported (d : dtype) : bool := dtype_in d [float32; complex64].

(** The routine [svd] picks for an element type. *)
Definition cula_func_of (d : dtype) : gesvd_routine :=
  if bool_decide (d = complex64) then culaDeviceCgesvd else culaDeviceSgesvd.

(** The call [svd] makes for an input of shape [rows; cols] whose buffer
    holds [a_buf]: the shape is read backwards, [m = cols] and [n = rows]. *)
Definition svd_call (d : dtype) (rows cols : N) (full_matrices compute_uv : bool)
    (a_buf : list elem) : Z * (list elem * list elem * list elem * list elem) :=
  let m := cols in
  let n := rows in
  let job := if compute_uv then if full_matrices then "A" else "S" else "N" in
  cula_func_of d job job m n a_buf (N.max 1 m)
               (if compute_uv then m else 1)
               (if compute_uv then if full_matrices then n else N.min m n else 1).



(** S of what [svd] returns. *)
Definition singular_values (r : svd_result) : GPUArray :=
  match r with
  | SvdTriple _ s_gpu _ => s_gpu
  | SvdS s_gpu => s_gpu
  end.

(** The grid chosen for [data_shape] reaches every index below [count]. *)
Definition covered (dev : Device) (data_shape : list N) (count : N) : bool :=
  forallb (fun idx => existsb (N.eqb idx)
                        (launch_indices dev (select_block_grid_sizes dev data_shape)))
          (Nrange count).

(** The log of a run of the loop of [mdot], round after round: the
    product is allocated at the next address, CUBLAS multiplies, and the
    buffer of the left operand is freed; the product is the left operand of
    the next round.  [cells] gives the size of each product. *)
Fixpoint rounds (out_gpu next_free : N) (cells : list N) : list event :=
  match cells with
  | [] => []
  | c :: cells' =>
      [EvAlloc next_free c; EvCall "gemm"; EvFree out_gpu]
      ++ rounds next_free (next_free + 1) cells'
  end.

(** What a transposition of an [m] x [n] matrix should leave in the cell
    at linear position [p] of the output. *)
Definition transposed_cell (use_complex : bool) (m n : N) (idata : list elem)
    (p : N) : elem :=
  CONJ use_complex (idata !!! N.to_nat (p mod m * n + p / m)).

(** What [diag] of a vector of [k] cells should leave in the cell at linear
    position [p] of the output. *)
Definition diag_cell (k : N) (v : list elem) (p : N) : elem :=
  if p / k =? p mod k then v !!! N.to_nat (p / k) else Re f0.

(** ** Further notions: products, launches, live buffers *)

(** No index occurs twice. *)
Fixpoint all_distinct (l : list N) : bool :=
  match l with
  | [] => true
  | x :: l' => negb (existsb (N.eqb x) l') && all_distinct l'
  end.

(** Whether an element type is complex. *)
Definition is_complex (d : dtype) : bool := dtype_in d [complex64; complex128].

(** [np.complex64(1.0)] and the like: the number one of a type. *)
Definition one_of (use_complex : bool) : elem :=
  if use_complex then Cx f1 f0 else Re f1.

(** The routine [dot] picks for an element type. *)
Definition gemm_of (d : dtype) : gemm_routine :=
  if bool_decide (d = complex64) then cublasCgemm
  else if bool_decide (d = float32) then cublasSgemm
  else if bool_decide (d = complex128) then cublasZgemm
  else cublasDgemm.

(** The call [dot] makes for operands of shapes [ra; ca] and [rb; cb] whose
    buffers hold [a_buf] and [b_buf]: the second operand goes first, with
    [m = cb], [n = ra] and [k = rb]. *)
Definition dot_call (d : dtype) (ra cb rb : N) (a_buf b_buf : list elem)
    : Z * list elem :=
  gemm_of d "N" "N" cb ra rb (one_of (is_complex d)) b_buf cb a_buf rb
          (zero_of (is_complex d)) (replicate (N.to_nat (ra * cb)) Undef) (N.max 1 cb).

(** The sum over [l < k] of the products [x l * y l], for a given addition
    and multiplication of cells. *)
Definition inner_product (eadd emul : elem -> elem -> elem) (zero : elem) (k : N)
    (x y : N -> elem) : elem :=
  fold_left (fun acc l => eadd acc (emul (x l) (y l))) (Nrange k) zero.

(** What BLAS documents of [gemm] without transposition and with [beta]
    zero: C is overwritten, cell (i, j) of the column-major [m] x [n]
    matrix C with [alpha] times the inner product of row [i] of A and
    column [j] of B. *)
Definition gemm_computes (eadd emul : elem -> elem -> elem) (use_complex : bool)
    (f : gemm_routine) : Prop :=
  forall m n k alpha A lda B ldb C ldc,
    m <= ldc ->
    (N.to_nat (n * ldc) <= length C)%nat ->
    length (snd (f "N" "N" m n k alpha A lda B ldb (zero_of use_complex) C ldc))
    = length C /\
    forall i j, i < m -> j < n ->
      snd (f "N" "N" m n k alpha A lda B ldb (zero_of use_complex) C ldc)
          !! N.to_nat (j * ldc + i)
      = Some (emul alpha
                (inner_product eadd emul (zero_of use_complex) k
                   (fun l => A !!! N.to_nat (l * lda + i))
                   (fun l => B !!! N.to_nat (j * ldb + l)))).

(** Every live buffer of a state lies below the next address to be
    allocated. *)
Definition well_formed (st : device_state) : Prop :=
  map_Forall (fun p _ => p < next st) (mem st).

(** Float32 and float64, the types [diag] has a kernel for. *)
Definition is_real (d : dtype) : bool := dtype_in d [float32; float64].

(** From [st] to [st'] exactly [k] buffers were allocated, at the next [k]
    addresses, and nothing was freed: the live buffers of [st'] are those of
    [st] and the new ones. *)
Definition grown (k : N) (st st' : device_state) : Prop :=
  next st' = next st + k /\
  (forall q, is_Some (mem st' !! q)
             <-> is_Some (mem st !! q) \/ next st <= q < next st + k) /\
  exists evs,
    trace st' = trace st ++ evs /\ Forall (fun e => is_free e = false) evs.

(** The addresses of the seven intermediate arrays of [pinv] when [p] is
    the first free address, in the order in which they are reclaimed: what
    [svd] returns first (allocated last), S, what it returns last, U^H,
    the diagonal matrix, V and the first product. *)
Definition pinv_locals (p : N) : list N :=
  [p + 2; p; p + 1; p + 3; p + 4; p + 5; p + 6].

End Linalg.

Notation "'let*' x ':=' c 'in' k" := (bind c (fun x => k))
  (at level 10, x pattern, c at level 100, k at level 200).
Notation "c ';;' k" := (bind c (fun _ => k))
  (at level 100, k at level 200, right associativity).

Arguments Ok {A} a.
Arguments Raise {A} e.

(** ** A concrete device for examples

    The examples below run on IEEE numbers (Rocq's binary floats stand for
    the numbers of the device) with small stand-ins for the external
    routines. *)

Definition ieee : Scalar :=
  {| scalar := float;
     f0 := 0%float;
     f1 := 1%float;
     fneg := PrimFloat.opp;
     fge := fun x y => PrimFloat.leb y x |}.

Module Fixture.

#[local] Existing Instance ieee.

Definition eadd (x y : elem) : elem :=
  match x, y with
  | Re a, Re b => Re (a + b)%float
  | Cx a b, Cx c d => Cx (a + c)%float (b + d)%float
  | _, _ => Undef
  end.

Definition emul (x y : elem) : elem :=
  match x, y with
  | Re a, Re b => Re (a * b)%float
  | Cx a b, Cx c d => Cx (a * c - b * d)%float (a * d + b * c)%float
  | _, _ => Undef
  end.

(** A reference [gemm] for the "N", "N" case the module uses: column-major
    [C(m x n) = alpha * A(m x k) * B(k x n)] with leading dimensions [lda],
    [ldb], [ldc]; [beta] is 0 in every call of the module, so C is not
    read.  It always reports success. *)
Definition gemm (complex : bool) : gemm_routine :=
  fun _ _ m n k alpha a lda b ldb _ c ldc =>
    let zero := if complex then Cx 0%float 0%float else Re 0%float in
    let cell (idx : N) : elem :=
      let i := idx mod ldc in
      let j := idx / ldc in
      emul alpha
           (fold_left (fun acc l => eadd acc (emul (a !!! N.to_nat (l * lda + i))
                                                 (b !!! N.to_nat (j * ldb + l))))
                      (Nrange k) zero) in
    (0%Z, map cell (Nrange (N.of_nat (length c)))).

(** The modulus and the phase of a cell. *)
Definition modulus (x : elem) : elem :=
  match x with
  | Re a => Re (PrimFloat.abs a)
  | Cx a b => Re (PrimFloat.sqrt (a * a + b * b))
  | Undef => Undef
  end.

Definition phase (x : elem) : elem :=
  match x with
  | Re a => if PrimFloat.ltb a 0%float then Re (-1)%float else Re 1%float
  | Cx a b =>
      let r := PrimFloat.sqrt (a * a + b * b) in
      if PrimFloat.eqb r 0%float then Cx 1%float 0%float else Cx (a / r)%float (b / r)%float
  | Undef => Undef
  end.

(** A stand-in for CULA's [gesvd] that is right on diagonal matrices whose
    entries do not increase in modulus, and so on every 1 x 1 matrix: S is
    the moduli of the diagonal, U carries the phases, VT is the identity.
    An output that is not asked for (job "N") is the one cell of its
    buffer, left as it was allocated.  It always reports success. *)
Definition gesvd (complex : bool) : gesvd_routine :=
  fun jobu jobvt m n a lda ldu ldvt =>
    let k := N.min m n in
    let zero := if complex then Cx 0%float 0%float else Re 0%float in
    let one := if complex then Cx 1%float 0%float else Re 1%float in
    let d (i : N) := a !!! N.to_nat (i * lda + i) in
    let s := map (fun i => modulus (d i)) (Nrange k) in
    let ucols := if String.eqb jobu "A" then m else if String.eqb jobu "S" then k else 0 in
    let u := map (fun idx => if (idx / ldu =? idx mod ldu) && (idx / ldu <? k)
                             then phase (d (idx / ldu))
                             else if idx / ldu =? idx mod ldu then one else zero)
                 (Nrange (ldu * ucols)) in
    let vtcols := if String.eqb jobvt "N" then 0 else n in
    let vt := map (fun idx => if idx / ldvt =? idx mod ldvt then one else zero)
                  (Nrange (ldvt * vtcols)) in
    (0%Z, (a, s, (if String.eqb jobu "N" then [Undef] else u),
           (if String.eqb jobvt "N" then [Undef] else vt))).

(** The power of PyCUDA for the one exponent the module uses. *)
Definition pow (x e : elem) : elem :=
  match x, e with
  | Re a, Re b => if PrimFloat.eqb b (-1)%float then Re (1 / a)%float else Undef
  | _, _ => Undef
  end.

(** Modelled from the spec: [select_block_grid_sizes] of [cuda_utils.misc],
    which is not among the sources.  The geometry is derived from the
    device maxima and the element count of the shape, with
    [block_size * num_blocks >= element_count]: blocks of
    [max_threads_per_block] threads in a row, and a second grid dimension
    once a row is full, which is the layout the kernels' linear index
    assumes. *)
Definition select (dev : Device) (data_shape : list N) : dim3 * dim3 :=
  let count := fold_right N.mul 1 data_shape in
  let max_blocks_per_grid_dim := max3 (max_grid_dim dev) in
  let blocks_needed := count / max_threads_per_block dev + 1 in
  if blocks_needed <? max_blocks_per_grid_dim
  then ((max_threads_per_block dev, 1, 1), (blocks_needed, 1, 1))
  else ((max_threads_per_block dev, 1, 1),
        (max_blocks_per_grid_dim, blocks_needed / max_blocks_per_grid_dim + 1, 1)).

Definition backend : Backend :=
  {| culaDeviceSgesvd := gesvd false;
     culaDeviceCgesvd := gesvd true;
     cublasSgemm := gemm false;
     cublasDgemm := gemm false;
     cublasCgemm := gemm true;
     cublasZgemm := gemm true;
     pow_kernel := pow;
     select_block_grid_sizes := select |}.

#[local] Existing Instance backend.

(** A device of compute capability 1.x. *)
Definition dev : Device := mkDevice 512 (512, 512, 64) (65535, 65535, 1).

(** Device memory holding one buffer, at address 0. *)
Definition one_buffer (l : list elem) : device_state :=
  mkState {[ 0 := l ]} 1 [].

Definition two_buffers (l1 l2 : list elem) : device_state :=
  mkState (<[ 1 := l2 ]> {[ 0 := l1 ]}) 2 [].

Definition reals (l : list float) : list elem := map Re l.

Definition complexes (l : list (float * float)) : list elem :=
  map (fun z => Cx (fst z) (snd z)) l.

(** Device memory holding three buffers, at addresses 0, 1 and 2. *)
Definition three_buffers (l1 l2 l3 : list elem) : device_state :=
  mkState (<[ 2 := l3 ]> (<[ 1 := l2 ]> {[ 0 := l1 ]})) 3 [].

(** Libraries that fail: CULA reports status 7 with what the routine
    above computes, and CUBLAS leaves status 13 and C as it was. *)
Definition failing : Backend :=
  {| culaDeviceSgesvd := fun jobu jobvt m n a lda ldu ldvt =>
       (7%Z, snd (gesvd false jobu jobvt m n a lda ldu ldvt));
     culaDeviceCgesvd := fun jobu jobvt m n a lda ldu ldvt =>
       (7%Z, snd (gesvd true jobu jobvt m n a lda ldu ldvt));
     cublasSgemm := fun _ _ _ _ _ _ _ _ _ _ _ c _ => (13%Z, c);
     cublasDgemm := fun _ _ _ _ _ _ _ _ _ _ _ c _ => (13%Z, c);
     cublasCgemm := fun _ _ _ _ _ _ _ _ _ _ _ c _ => (13%Z, c);
     cublasZgemm := fun _ _ _ _ _ _ _ _ _ _ _ c _ => (13%Z, c);
     pow_kernel := pow;
     select_block_grid_sizes := select |}.

End Fixture.

(** * Properties *)

Section Facts.

Context {Sc : Scalar} {Bk : Backend}.

(** ** Running a computation *)

Lemma bind_Ok {A B} (c : M A) (k : A -> M B) st a st1 :
  c st = (Ok a, st1) -> bind c k st = k a st1.
Proof. intros H. unfold bind. now rewrite H. Qed.

Lemma bind_Raise {A B} (c : M A) (k : A -> M B) st e st1 :
  c st = (Raise e, st1) -> bind c k st = (Raise e, st1).
Proof. intros H. unfold bind. now rewrite H. Qed.

Lemma spec_bind {A B} (c : M A) (k : A -> M B) st Q :
  spec c st (fun r st1 =>
               match r with
               | Ok a => spec (k a) st1 Q
               | Raise e => Q (Raise e) st1
               end) ->
  spec (bind c k) st Q.
Proof.
  unfold spec, bind. destruct (c st) as [[a|e] st1]; simpl; auto.
Qed.

Lemma spec_weaken {A} (c : M A) st (Q Q' : result A -> device_state -> Prop) :
  spec c st Q -> (forall r st', Q r st' -> Q' r st') -> spec c st Q'.
Proof. unfold spec. auto. Qed.

Lemma spec_run {A} (c : M A) st (Q : result A -> device_state -> Prop) r st' :
  spec c st Q -> c st = (r, st') -> Q r st'.
Proof. unfold spec. intros H E. now rewrite E in H. Qed.

Lemma bind_inv_Ok {A B} (c : M A) (k : A -> M B) st b st' :
  bind c k st = (Ok b, st') ->
  exists a st1, c st = (Ok a, st1) /\ k a st1 = (Ok b, st').
Proof.
  unfold bind. destruct (c st) as [[a|e] st1]; [eauto|discriminate].
Qed.

(** Takes a run that returned apart, bind by bind. *)
Ltac inv_binds H :=
  repeat (apply bind_inv_Ok in H;
          let a := fresh "a" in
          let st := fresh "st" in
          let E := fresh "E" in
          destruct H as (a & st & E & H);
          repeat match goal with
                 | x : (_ * _)%type |- _ => destruct x
                 end;
          cbv beta iota in H).

Ltac inv_prims :=
  repeat match goal with
         | E : bind _ _ _ = (Ok _, _) |- _ => inv_binds E
         | E : ret _ _ = (Ok _, _) |- _ => inversion E; subst; clear E
         | E : empty _ _ _ = (Ok _, _) |- _ => inversion E; subst; clear E
         | E : log _ _ = (Ok _, _) |- _ => inversion E; subst; clear E
         | E : store _ _ _ = (Ok _, _) |- _ => inversion E; subst; clear E
         | E : load ?p ?s = (Ok _, _) |- _ =>
             unfold load in E; destruct (mem s !! p) eqn:?;
             inversion E; subst; clear E
         | E : shape_at ?a ?i _ = (Ok _, _) |- _ =>
             unfold shape_at in E; destruct (shape a !! i) eqn:?;
             inversion E; subst; clear E
         | E : cublasCheckStatus ?z _ = (Ok _, _) |- _ =>
             unfold cublasCheckStatus in E; destruct (Z.eqb z 0);
             inversion E; subst; clear E
         | E : culaCheckStatus ?z _ = (Ok _, _) |- _ =>
             unfold culaCheckStatus in E; destruct (Z.eqb z 0);
             inversion E; subst; clear E
         end.

(** ** Computations that release nothing *)

Lemma keeps_refl st : keeps st st.
Proof.
  split; [auto|]. split; [lia|]. exists []. rewrite app_nil_r.
  split; [reflexivity|]. split; [constructor|]. intros p n [].
Qed.

Lemma keeps_trans st1 st2 st3 : keeps st1 st2 -> keeps st2 st3 -> keeps st1 st3.
Proof.
  intros (Hm1 & Hn1 & evs1 & Ht1 & Hf1 & Ha1) (Hm2 & Hn2 & evs2 & Ht2 & Hf2 & Ha2).
  split; [auto|]. split; [lia|].
  exists (evs1 ++ evs2). rewrite Ht2, Ht1, app_assoc.
  split; [reflexivity|]. split.
  - apply Forall_app. auto.
  - intros p n Hin. apply in_app_or in Hin. destruct Hin as [Hin|Hin]; eauto.
Qed.

Lemma quiet_ret {A} (a : A) : quiet (ret a).
Proof. intros st. apply keeps_refl. Qed.

Lemma quiet_raise {A} e : quiet (raise e : M A).
Proof. intros st. apply keeps_refl. Qed.

Lemma quiet_bind {A B} (c : M A) (k : A -> M B) :
  quiet c -> (forall a, quiet (k a)) -> quiet (bind c k).
Proof.
  intros Hc Hk st. apply spec_bind.
  eapply spec_weaken; [apply Hc|]. intros [a|e] st1 H1; [|exact H1].
  eapply spec_weaken; [apply Hk|]. intros r st2 H2. eapply keeps_trans; eauto.
Qed.

Lemma quiet_log e : is_free e = false -> (forall p n, e <> EvAlloc p n) -> quiet (log e).
Proof.
  intros Hf Ha st. unfold spec, log, keeps. simpl.
  split; [auto|]. split; [lia|]. exists [e].
  split; [reflexivity|]. split; [repeat constructor; exact Hf|].
  intros p n [Hin|[]]. now destruct (Ha p n).
Qed.

Lemma quiet_empty shp dt : quiet (empty shp dt).
Proof.
  intros st. unfold spec, empty, keeps. simpl.
  split.
  - intros p Hp. destruct (decide (next st = p)) as [->|Hne].
    + rewrite lookup_insert_eq. eauto.
    + now rewrite lookup_insert_ne.
  - split; [lia|]. eexists. split; [reflexivity|].
    split; [repeat constructor|].
    intros p n [Hin|[]]. inversion Hin; subst. rewrite lookup_insert_eq. eauto.
Qed.

Lemma quiet_load p : quiet (load p).
Proof.
  intros st. unfold spec, load. destruct (mem st !! p); apply keeps_refl.
Qed.

Lemma quiet_store p l : quiet (store p l).
Proof.
  intros st. unfold spec, store, keeps. simpl.
  split.
  - intros q Hq. destruct (decide (p = q)) as [->|Hne].
    + rewrite lookup_insert_eq. eauto.
    + now rewrite lookup_insert_ne.
  - split; [lia|]. exists []. rewrite app_nil_r.
    split; [reflexivity|]. split; [constructor|]. intros q n [].
Qed.

Lemma quiet_shape_at a i : quiet (shape_at a i).
Proof. unfold shape_at. destruct (shape a !! i); [apply quiet_ret|apply quiet_raise]. Qed.

Lemma quiet_culaCheckStatus status : quiet (culaCheckStatus status).
Proof. unfold culaCheckStatus. destruct (Z.eqb status 0); [apply quiet_ret|apply quiet_raise]. Qed.

Lemma quiet_cublasCheckStatus status : quiet (cublasCheckStatus status).
Proof. unfold cublasCheckStatus. destruct (Z.eqb status 0); [apply quiet_ret|apply quiet_raise]. Qed.

Create HintDb quiet.

#[local] Hint Resolve quiet_ret quiet_raise quiet_empty quiet_load quiet_store
  quiet_shape_at quiet_culaCheckStatus quiet_cublasCheckStatus : quiet.

(** Walks through a computation built from the pieces above. *)
Ltac quiet_step :=
  match goal with
  | |- quiet (bind _ _) => apply quiet_bind; [|intros ?]
  | |- quiet (log _) => apply quiet_log; [reflexivity|discriminate]
  | |- quiet (if ?b then _ else _) => destruct b
  | |- quiet (match ?x with _ => _ end) => destruct x
  | |- quiet (let '(_, _) := ?x in _) => destruct x
  | |- quiet _ => solve [auto with quiet]
  end.

Lemma quiet_call_gesvd f jobu jobvt m n a lda s u ldu vt ldvt :
  quiet (call_gesvd f jobu jobvt m n a lda s u ldu vt ldvt).
Proof. unfold call_gesvd. repeat quiet_step. Qed.

Lemma quiet_call_gemm f tb ta m n k alpha b lda a ldb beta c ldc :
  quiet (call_gemm f tb ta m n k alpha b lda a ldb beta c ldc).
Proof. unfold call_gemm. repeat quiet_step. Qed.

#[local] Hint Resolve quiet_call_gesvd quiet_call_gemm : quiet.

Lemma quiet_svd a fm cuv : quiet (svd a fm cuv).
Proof. unfold svd. repeat quiet_step. Qed.

Lemma quiet_dot a b : quiet (dot a b).
Proof. unfold dot. repeat quiet_step. Qed.

Lemma quiet_transpose a dev : quiet (transpose a dev).
Proof. unfold transpose, get_dev_attrs. repeat quiet_step. Qed.

Lemma quiet_conj a dev : quiet (conj a dev).
Proof. unfold conj, get_dev_attrs. repeat quiet_step. Qed.

Lemma quiet_diag v dev : quiet (diag v dev).
Proof. unfold diag, get_dev_attrs. repeat quiet_step. Qed.

Lemma quiet_ipow a e : quiet (ipow a e).
Proof. unfold ipow. repeat quiet_step. Qed.

#[local] Hint Resolve quiet_svd quiet_dot quiet_transpose quiet_conj quiet_diag
  quiet_ipow : quiet.

(** ** When the functions return *)

Lemma returns_bind {A B} (c : M A) (k : A -> M B) st Q :
  returns c st (fun a st1 => returns (k a) st1 Q) -> returns (bind c k) st Q.
Proof.
  intros (a & st1 & Hc & b & st2 & Hk & HQ).
  exists b, st2. split; [|exact HQ]. now rewrite (bind_Ok _ _ _ _ _ Hc).
Qed.

Lemma returns_weaken {A} (c : M A) st (P P' : A -> device_state -> Prop) :
  returns c st P -> (forall a st', P a st' -> P' a st') -> returns c st P'.
Proof. intros (a & st' & Hc & HP) H. exists a, st'. auto. Qed.

Lemma returns_quiet {A} (c : M A) st P :
  quiet c -> returns c st P -> returns c st (fun a st' => P a st' /\ keeps st st').
Proof.
  intros Hq (a & st' & Hc & HP). exists a, st'. split; [exact Hc|].
  split; [exact HP|]. exact (spec_run _ _ _ _ _ (Hq st) Hc).
Qed.

Lemma returns_ret {A} (a : A) st (P : A -> device_state -> Prop) :
  P a st -> returns (ret a) st P.
Proof. intros H. exists a, st. auto. Qed.

Lemma returns_log e st (P : unit -> device_state -> Prop) :
  P tt (mkState (mem st) (next st) (trace st ++ [e])) -> returns (log e) st P.
Proof. intros H. eexists _, _. split; [reflexivity|exact H]. Qed.

Lemma returns_empty shp dt st (P : GPUArray -> device_state -> Prop) :
  P (mkGPUArray (next st) shp dt)
    (mkState (<[next st := replicate (N.to_nat (fold_right N.mul 1 shp)) Undef]> (mem st))
             (next st + 1) (trace st ++ [EvAlloc (next st) (fold_right N.mul 1 shp)])) ->
  returns (empty shp dt) st P.
Proof. intros H. eexists _, _. split; [reflexivity|exact H]. Qed.

Lemma returns_load p st (P : list elem -> device_state -> Prop) :
  is_Some (mem st !! p) ->
  (forall l, mem st !! p = Some l -> P l st) ->
  returns (load p) st P.
Proof.
  intros [l Hl] H. exists l, st. split; [|auto]. unfold load. now rewrite Hl.
Qed.

Lemma returns_store p l st (P : unit -> device_state -> Prop) :
  P tt (mkState (<[p := l]> (mem st)) (next st) (trace st)) ->
  returns (store p l) st P.
Proof. intros H. eexists _, _. split; [reflexivity|exact H]. Qed.

Lemma is_Some_insert (m : gmap N (list elem)) p q l :
  is_Some (m !! q) -> is_Some (<[p := l]> m !! q).
Proof.
  intros H. destruct (decide (p = q)) as [->|Hne].
  - rewrite lookup_insert_eq. eauto.
  - now rewrite lookup_insert_ne.
Qed.

Lemma is_Some_insert_eq (m : gmap N (list elem)) p l : is_Some (<[p := l]> m !! p).
Proof. rewrite lookup_insert_eq. eauto. Qed.

#[local] Hint Resolve is_Some_insert is_Some_insert_eq : core.

Lemma returns_culaCheckStatus st (P : unit -> device_state -> Prop) :
  P tt st -> returns (culaCheckStatus 0) st P.
Proof. apply returns_ret. Qed.

Lemma returns_cublasCheckStatus st (P : unit -> device_state -> Prop) :
  P tt st -> returns (cublasCheckStatus 0) st P.
Proof. apply returns_ret. Qed.

(** One step of a run that is known to go through. *)
Ltac run_step :=
  match goal with
  | |- returns (culaCheckStatus 0) _ _ => apply returns_culaCheckStatus
  | |- returns (cublasCheckStatus 0) _ _ => apply returns_cublasCheckStatus
  | |- returns (bind _ _) _ _ => apply returns_bind
  | |- returns (ret _) _ _ => apply returns_ret
  | |- returns (log _) _ _ => apply returns_log
  | |- returns (empty _ _) _ _ => apply returns_empty
  | |- returns (store _ _) _ _ => apply returns_store
  | |- returns (load _) _ _ =>
      apply returns_load; [simpl; auto 10 | intros ? ?]
  end; simpl.

Lemma keeps_live st st' a : keeps st st' -> live st a -> live st' a.
Proof. intros (Hm & _) H. apply Hm, H. Qed.

Lemma transpose_returns a dev st rows cols :
  supported (dtype_of a) = true ->
  shape a = [rows; cols] ->
  live st a ->
  returns (transpose a dev) st
    (fun at_gpu st' =>
       at_gpu = mkGPUArray (next st) [cols; rows] (dtype_of a) /\
       live st' at_gpu /\ keeps st st').
Proof.
  intros Hd Hs Hl.
  eapply returns_weaken; [apply returns_quiet with
    (P := fun at_gpu st' => at_gpu = mkGPUArray (next st) [cols; rows] (dtype_of a) /\
                            live st' at_gpu); [apply quiet_transpose|]|simpl; intuition].
  unfold transpose. unfold supported in Hd. rewrite Hd. simpl negb. cbv iota.
  unfold get_dev_attrs. destruct (select_block_grid_sizes dev (shape a)) as [block grid].
  unfold shape_at. rewrite Hs. simpl.
  repeat run_step.
  split; [reflexivity|]. unfold live. simpl. auto.
Qed.

Lemma diag_returns v dev st :
  is_real (dtype_of v) = true ->
  live st v ->
  returns (diag v dev) st
    (fun d_gpu st' =>
       d_gpu = mkGPUArray (next st) [size v; size v] (dtype_of v) /\
       live st' d_gpu /\ keeps st st').
Proof.
  intros Hd Hl.
  eapply returns_weaken; [apply returns_quiet with
    (P := fun d_gpu st' => d_gpu = mkGPUArray (next st) [size v; size v] (dtype_of v) /\
                           live st' d_gpu); [apply quiet_diag|]|simpl; intuition].
  unfold diag, get_dev_attrs.
  destruct (select_block_grid_sizes dev (shape v)) as [block grid].
  destruct (dtype_of v); try discriminate Hd; simpl; repeat run_step;
    (split; [reflexivity|]); unfold live; simpl; auto.
Qed.

Lemma conj_returns a dev st :
  supported (dtype_of a) = true ->
  live st a ->
  returns (conj a dev) st (fun _ st' => keeps st st').
Proof.
  intros Hd Hl.
  eapply returns_weaken; [apply returns_quiet with (P := fun _ _ => True);
                          [apply quiet_conj|]|simpl; intuition].
  unfold conj, get_dev_attrs.
  destruct (select_block_grid_sizes dev (shape a)) as [block grid].
  destruct (dtype_of a); try discriminate Hd; simpl; repeat run_step; exact I.
Qed.

Lemma ipow_returns a e st :
  live st a ->
  returns (ipow a e) st (fun _ st' => keeps st st').
Proof.
  intros Hl.
  eapply returns_weaken; [apply returns_quiet with (P := fun _ _ => True);
                          [apply quiet_ipow|]|simpl; intuition].
  unfold ipow. repeat run_step. exact I.
Qed.

Lemma call_gesvd_returns f jobu jobvt m n a lda s u ldu vt ldvt st :
  gesvd_succeeds f ->
  is_Some (mem st !! a) -> is_Some (mem st !! s) ->
  is_Some (mem st !! u) -> is_Some (mem st !! vt) ->
  returns (call_gesvd f jobu jobvt m n a lda s u ldu vt ldvt) st
    (fun status st' => status = 0%Z /\ keeps st st').
Proof.
  intros Hf Ha Hs Hu Hvt.
  eapply returns_weaken; [apply returns_quiet with (P := fun status _ => status = 0%Z);
                          [apply quiet_call_gesvd|]|simpl; intuition].
  unfold call_gesvd. repeat run_step.
  specialize (Hf jobu jobvt m n l lda ldu ldvt).
  destruct (f jobu jobvt m n l lda ldu ldvt) as [status [[[a' s'] u'] vt']].
  simpl in Hf. subst status. repeat run_step. reflexivity.
Qed.

Lemma call_gemm_returns f tb ta m n k alpha b lda a ldb beta c ldc st :
  gemm_succeeds f ->
  is_Some (mem st !! b) -> is_Some (mem st !! a) -> is_Some (mem st !! c) ->
  returns (call_gemm f tb ta m n k alpha b lda a ldb beta c ldc) st
    (fun status st' => status = 0%Z /\ keeps st st').
Proof.
  intros Hf Hb Ha Hc.
  eapply returns_weaken; [apply returns_quiet with (P := fun status _ => status = 0%Z);
                          [apply quiet_call_gemm|]|simpl; intuition].
  unfold call_gemm. repeat run_step.
  specialize (Hf tb ta m n k alpha l lda l0 ldb beta l1 ldc).
  destruct (f tb ta m n k alpha l lda l0 ldb beta l1 ldc) as [status c'].
  simpl in Hf. subst status. repeat run_step. reflexivity.
Qed.

(** The three arrays [svd] allocates for an input of shape [rows; cols],
    when [p] is the first free address: S, then U, then VT. *)
Lemma svd_returns a fm cuv st rows cols :
  svd_supported (dtype_of a) = true ->
  shape a = [rows; cols] ->
  live st a ->
  (dtype_of a = float32 -> gesvd_succeeds culaDeviceSgesvd) ->
  (dtype_of a = complex64 -> gesvd_succeeds culaDeviceCgesvd) ->
  returns (svd a fm cuv) st
    (fun r st' =>
       let m := cols in
       let n := rows in
       let s_gpu := mkGPUArray (next st) [N.min m n] float32 in
       let u_gpu := mkGPUArray (next st + 1)
                      (if cuv then if fm then [m; m] else [N.min m n; m] else [1; 1])
                      (dtype_of a) in
       let vt_gpu := mkGPUArray (next st + 1 + 1)
                       (if cuv then if fm then [n; n] else [n; N.min m n] else [1; 1])
                       (dtype_of a) in
       r = (if cuv then SvdTriple vt_gpu s_gpu u_gpu else SvdS s_gpu) /\
       live st' s_gpu /\ live st' u_gpu /\ live st' vt_gpu /\ keeps st st').
Proof.
  intros Hd Hs Hl HS HC.
  set (s_gpu := mkGPUArray (next st) [N.min cols rows] float32).
  set (u_gpu := mkGPUArray (next st + 1)
                  (if cuv then if fm then [cols; cols] else [N.min cols rows; cols]
                   else [1; 1]) (dtype_of a)).
  set (vt_gpu := mkGPUArray (next st + 1 + 1)
                   (if cuv then if fm then [rows; rows] else [rows; N.min cols rows]
                    else [1; 1]) (dtype_of a)).
  eapply returns_weaken; [apply returns_quiet with
    (P := fun r st' => r = (if cuv then SvdTriple vt_gpu s_gpu u_gpu else SvdS s_gpu) /\
                       live st' s_gpu /\ live st' u_gpu /\ live st' vt_gpu);
                          [apply quiet_svd|]|simpl; intuition].
  subst s_gpu u_gpu vt_gpu.
  destruct a as [p shp dt]. unfold live in *. simpl in *. subst shp.
  unfold svd; simpl.
  destruct dt; try discriminate Hd; simpl;
    [specialize (HS eq_refl); clear HC|specialize (HC eq_refl); clear HS];
    destruct cuv, fm; simpl; repeat run_step;
    (eapply returns_weaken;
     [apply call_gesvd_returns; simpl; auto 10|]);
    simpl; intros status st1 [-> (Hm & _)]; simpl; repeat run_step;
    (split; [reflexivity|]); unfold live; simpl;
    repeat split; apply Hm; simpl; auto 10.
Qed.

Lemma dot_returns a b st ra ca rb cb :
  supported (dtype_of a) = true ->
  dtype_of b = dtype_of a ->
  shape a = [ra; ca] ->
  shape b = [rb; cb] ->
  live st a -> live st b ->
  (dtype_of a = float32 -> gemm_succeeds cublasSgemm) ->
  (dtype_of a = float64 -> gemm_succeeds cublasDgemm) ->
  (dtype_of a = complex64 -> gemm_succeeds cublasCgemm) ->
  (dtype_of a = complex128 -> gemm_succeeds cublasZgemm) ->
  returns (dot a b) st
    (fun c_gpu st' =>
       c_gpu = mkGPUArray (next st) [ra; cb] (dtype_of a) /\
       live st' c_gpu /\ keeps st st').
Proof.
  intros Hd Hb Hsa Hsb Hla Hlb HS HD HC HZ.
  eapply returns_weaken; [apply returns_quiet with
    (P := fun c_gpu st' => c_gpu = mkGPUArray (next st) [ra; cb] (dtype_of a) /\
                           live st' c_gpu); [apply quiet_dot|]|simpl; intuition].
  destruct a as [pa sa da], b as [pb sb db]. unfold live in *. simpl in *. subst.
  unfold dot, shape_at; simpl.
  destruct da; try discriminate Hd; simpl;
    [specialize (HS eq_refl)|specialize (HD eq_refl)
    |specialize (HC eq_refl)|specialize (HZ eq_refl)];
    repeat run_step;
    (eapply returns_weaken;
     [apply call_gemm_returns; simpl; auto 10|]);
    simpl; intros status st1 [-> (Hm & _)]; simpl; repeat run_step;
    (split; [reflexivity|]); unfold live; simpl; apply Hm; simpl; auto.
Qed.

Lemma raises_bind {A B} (c : M A) (k : A -> M B) st e :
  returns c st (fun a st1 => raises (k a) st1 e) -> raises (bind c k) st e.
Proof.
  intros (a & st1 & Hc & st2 & Hk). exists st2. now rewrite (bind_Ok _ _ _ _ _ Hc).
Qed.

Lemma raises_bind_now {A B} (c : M A) (k : A -> M B) st e :
  raises c st e -> raises (bind c k) st e.
Proof. intros (st1 & Hc). exists st1. now rewrite (bind_Raise _ _ _ _ _ Hc). Qed.

Lemma dot_mixed_types a b st :
  supported (dtype_of a) = true ->
  dtype_of a <> dtype_of b ->
  dot a b st = (Raise (ValueError "unsupported combination of input types"), st).
Proof.
  intros Hd Hne. unfold dot.
  destruct (dtype_of a), (dtype_of b); try discriminate Hd; try congruence; reflexivity.
Qed.

(** [pinv] on a supported input gets as far as its two products: its
    outcome is that of its last three lines, run on Sigma+ (of type
    float32), U^H and V (of the type of the input), all three live. *)
Lemma pinv_reaches_products a dev st rows cols
    (R : result GPUArray * device_state -> Prop) :
  svd_supported (dtype_of a) = true ->
  shape a = [rows; cols] ->
  live st a ->
  (dtype_of a = float32 -> gesvd_succeeds culaDeviceSgesvd) ->
  (dtype_of a = complex64 -> gesvd_succeeds culaDeviceCgesvd) ->
  (forall u_gpu s_gpu vh_gpu s_diag_gpu uh_gpu v_gpu st',
     let k := N.min cols rows in
     dtype_of s_diag_gpu = float32 /\ shape s_diag_gpu = [k * 1; k * 1] ->
     dtype_of uh_gpu = dtype_of a /\ shape uh_gpu = [k; rows] ->
     dtype_of v_gpu = dtype_of a /\ shape v_gpu = [cols; k] ->
     live st' s_diag_gpu /\ live st' uh_gpu /\ live st' v_gpu ->
     keeps st st' ->
     R ((let* suh_gpu := dot s_diag_gpu uh_gpu in
         let* a_inv := dot v_gpu suh_gpu in
         reclaim_all [u_gpu; s_gpu; vh_gpu; uh_gpu; s_diag_gpu; v_gpu; suh_gpu];;
         ret a_inv) st')) ->
  R (pinv a dev st).
Proof.
  intros Hd Hs Hl HS HC HR.
  assert (Hsup : supported (dtype_of a) = true)
    by (destruct (dtype_of a); try discriminate Hd; reflexivity).
  unfold pinv. unfold svd_supported in Hd. rewrite Hd.
  change (negb true) with false. cbv iota.
  destruct (conj_returns a dev st Hsup Hl) as ([] & st1 & E1 & K1).
  rewrite (bind_Ok _ _ _ _ _ E1).
  destruct (svd_returns a false true st1 rows cols) as (r & st2 & E2 & -> & Ls & Lu & Lvt & K2);
    eauto using keeps_live.
  set (u_gpu := mkGPUArray (next st1 + 1 + 1) [rows; N.min cols rows] (dtype_of a)) in *.
  set (s_gpu := mkGPUArray (next st1) [N.min cols rows] float32) in *.
  set (vh_gpu := mkGPUArray (next st1 + 1) [N.min cols rows; cols] (dtype_of a)) in *.
  match goal with
  | |- R (bind ?c _ _) =>
      assert (E2' : c st1 = (Ok (u_gpu, s_gpu, vh_gpu), st2))
        by (rewrite (bind_Ok _ _ _ _ _ E2); reflexivity)
  end.
  rewrite (bind_Ok _ _ _ _ _ E2'). clear E2'.
  destruct (transpose_returns u_gpu dev st2 rows (N.min cols rows) Hsup eq_refl Lvt)
    as (uh_gpu & st3 & E3 & Huh & Luh & K3).
  rewrite (bind_Ok _ _ _ _ _ E3).
  destruct (ipow_returns s_gpu minus_one st3 (keeps_live _ _ _ K3 Ls))
    as ([] & st4 & E4 & K4).
  rewrite (bind_Ok _ _ _ _ _ E4).
  destruct (diag_returns s_gpu dev st4 eq_refl (keeps_live _ _ _ K4 (keeps_live _ _ _ K3 Ls)))
    as (s_diag_gpu & st5 & E5 & Hsd & Lsd & K5).
  rewrite (bind_Ok _ _ _ _ _ E5).
  destruct (transpose_returns vh_gpu dev st5 (N.min cols rows) cols Hsup eq_refl
              (keeps_live _ _ _ K5 (keeps_live _ _ _ K4 (keeps_live _ _ _ K3 Lu))))
    as (v_gpu & st6 & E6 & Hv & Lv & K6).
  rewrite (bind_Ok _ _ _ _ _ E6).
  subst uh_gpu s_diag_gpu v_gpu.
  apply HR; simpl; unfold size; simpl.
  - split; reflexivity.
  - split; reflexivity.
  - split; reflexivity.
  - repeat split.
    + eapply keeps_live; [exact K6|exact Lsd].
    + eapply keeps_live; [exact K6|]. eapply keeps_live; [exact K5|].
      eapply keeps_live; [exact K4|exact Luh].
    + exact Lv.
  - repeat (eapply keeps_trans; [eassumption|]). apply keeps_refl.
Qed.

(** ** What a returned array is like, whatever the run *)

Lemma transpose_dtype a dev st at_gpu st' :
  transpose a dev st = (Ok at_gpu, st') -> dtype_of at_gpu = dtype_of a.
Proof.
  unfold transpose, get_dev_attrs. intros H.
  destruct (negb _); [discriminate H|].
  destruct (select_block_grid_sizes dev (shape a)) as [block grid].
  inv_prims. reflexivity.
Qed.

Lemma diag_dtype v dev st d_gpu st' :
  diag v dev st = (Ok d_gpu, st') -> dtype_of d_gpu = dtype_of v.
Proof.
  unfold diag, get_dev_attrs. intros H.
  destruct (negb _); [discriminate H|].
  destruct (select_block_grid_sizes dev (shape v)) as [block grid].
  inv_binds H.
  match goal with
  | E : (if ?b then _ else _) _ = (Ok _, _) |- _ => destruct b; [discriminate E|]
  end.
  inv_prims. reflexivity.
Qed.

Lemma svd_dtypes a st first second third st' :
  svd a false true st = (Ok (SvdTriple first second third), st') ->
  dtype_of first = dtype_of a /\ dtype_of second = float32.
Proof.
  unfold svd. intros H. simpl in H.
  inv_prims. split; reflexivity.
Qed.

(** On a complex64 matrix [pinv] never returns, whatever the state of the
    device and whatever CULA and CUBLAS do. *)
Lemma pinv_complex64_never_returns a dev st a_inv st' :
  dtype_of a = complex64 -> pinv a dev st <> (Ok a_inv, st').
Proof.
  intros Hd H. unfold pinv in H. rewrite Hd in H. simpl in H.
  inv_binds H.
  match goal with
  | E : bind (svd _ _ _) _ _ = _ |- _ =>
      inv_binds E;
      match goal with
      | E' : svd _ _ _ _ = (Ok ?r, _) |- _ =>
          destruct r as [u_gpu s_gpu vh_gpu|]; [|discriminate E];
          inversion E; subst; clear E;
          apply svd_dtypes in E'; destruct E' as [Hu Hs]
      end
  end.
  repeat match goal with
         | E : transpose _ _ _ = _ |- _ => apply transpose_dtype in E
         | E : diag _ _ _ = _ |- _ => apply diag_dtype in E
         end.
  match goal with
  | E : dot ?x ?y _ = (Ok _, _), Hy : dtype_of ?y = _ |- _ =>
      rewrite (dot_mixed_types x y) in E; [discriminate E| |]
  end.
  - repeat match goal with E : dtype_of _ = _ |- _ => rewrite E; clear E end.
    reflexivity.
  - repeat match goal with E : dtype_of _ = _ |- _ => rewrite E; clear E end.
    discriminate.
Qed.

(** ** What a run that returns has allocated *)

Lemma grown_refl st : grown 0 st st.
Proof.
  split; [lia|]. split.
  - intros q. split; [auto|]. intros [H|H]; [exact H|lia].
  - exists []. rewrite app_nil_r. split; [reflexivity|constructor].
Qed.

Lemma grown_trans k1 k2 st st1 st2 :
  grown k1 st st1 -> grown k2 st1 st2 -> grown (k1 + k2) st st2.
Proof.
  intros (Hn1 & Hm1 & evs1 & Ht1 & Hf1) (Hn2 & Hm2 & evs2 & Ht2 & Hf2).
  split; [lia|]. split.
  - intros q. rewrite Hm2, Hm1, Hn1. intuition lia.
  - exists (evs1 ++ evs2). rewrite Ht2, Ht1, app_assoc.
    split; [reflexivity|]. apply Forall_app. auto.
Qed.

(** Settles [grown] between a state and one built from it by insertions
    and by additions to the log. *)
Ltac grown_solve :=
  unfold grown; simpl;
  repeat match goal with
         | H : _ !! _ = Some _ |- _ =>
             apply mk_is_Some in H; simpl in H;
             rewrite ?lookup_insert_is_Some' in H
         end;
  split; [lia|];
  split;
  [ intros ?q; rewrite ?lookup_insert_is_Some';
    intuition (try subst; auto; try lia)
  | eexists; split;
    [ rewrite <- ?app_assoc; first [reflexivity | symmetry; apply app_nil_r]
    | repeat constructor ] ].

(** Takes a run that returned apart, choices included. *)
Ltac inv_run :=
  repeat first
    [ progress inv_prims
    | match goal with
      | E : raise _ _ = (Ok _, _) |- _ => discriminate E
      | E : (if ?b then _ else _) _ = (Ok _, _) |- _ => destruct b
      end ].

Lemma call_gesvd_grown f jobu jobvt m n a lda s u ldu vt ldvt st status st' :
  call_gesvd f jobu jobvt m n a lda s u ldu vt ldvt st = (Ok status, st') ->
  grown 0 st st'.
Proof.
  unfold call_gesvd. intros H. inv_binds H.
  destruct (f _ _ _ _ _ _ _ _) as [status' [[[a' s'] u'] vt']].
  inv_prims. grown_solve.
Qed.

Lemma call_gemm_grown f tb ta m n k alpha b lda a ldb beta c ldc st status st' :
  call_gemm f tb ta m n k alpha b lda a ldb beta c ldc st = (Ok status, st') ->
  grown 0 st st'.
Proof.
  unfold call_gemm. intros H. inv_binds H.
  destruct (f _ _ _ _ _ _ _ _ _ _ _ _ _) as [status' c'].
  inv_prims. grown_solve.
Qed.


Lemma conj_grown a dev st r st' :
  conj a dev st = (Ok r, st') -> grown 0 st st'.
Proof.
  unfold conj, get_dev_attrs. intros H.
  destruct (dtype_in _ _); [inversion H; subst; apply grown_refl|].
  destruct (select_block_grid_sizes dev (shape a)) as [block grid].
  inv_run; grown_solve.
Qed.

Lemma ipow_grown a e st r st' :
  ipow a e st = (Ok r, st') -> grown 0 st st'.
Proof. unfold ipow. intros H. inv_prims. grown_solve. Qed.

Lemma transpose_grown a dev st at_gpu st' :
  transpose a dev st = (Ok at_gpu, st') ->
  gpudata at_gpu = next st /\ grown 1 st st'.
Proof.
  unfold transpose, get_dev_attrs. intros H.
  destruct (negb _); [discriminate H|].
  destruct (select_block_grid_sizes dev (shape a)) as [block grid].
  inv_prims. split; [reflexivity|]. grown_solve.
Qed.

Lemma diag_grown v dev st d_gpu st' :
  diag v dev st = (Ok d_gpu, st') ->
  gpudata d_gpu = next st /\ grown 1 st st'.
Proof.
  unfold diag, get_dev_attrs. intros H.
  destruct (negb _); [discriminate H|].
  destruct (select_block_grid_sizes dev (shape v)) as [block grid].
  inv_binds H.
  match goal with
  | E : (if ?b then _ else _) _ = (Ok _, _) |- _ => destruct b; [discriminate E|]
  end.
  inv_prims. split; [reflexivity|]. grown_solve.
Qed.

(** A product that returns allocated its result and called CUBLAS. *)
Lemma dot_grown a b st c_gpu st' :
  dot a b st = (Ok c_gpu, st') ->
  gpudata c_gpu = next st /\ grown 1 st st' /\
  exists cells, trace st' = trace st ++ [EvAlloc (next st) cells; EvCall "gemm"].
Proof.
  unfold dot, call_gemm. intros H.
  inv_binds H.
  match goal with
  | E : (if _ then _ else _) _ = (Ok _, _) |- _ =>
      repeat match type of E with
             | context [if ?c then _ else _] => destruct c
             end;
      inversion E; subst; clear E
  end.
  all: inv_prims.
  all: match goal with
       | E : (let '(_, _) := ?f in _) _ = (Ok _, _) |- _ =>
           destruct f as [status c']; inv_prims
       end.
  all: split; [reflexivity|]; split;
    [grown_solve|simpl; eexists; rewrite <- app_assoc; reflexivity].
Qed.

Lemma svd_grown a fm cuv st r st' :
  svd a fm cuv st = (Ok r, st') ->
  grown 3 st st' /\
  match r with
  | SvdTriple first second third =>
      gpudata first = next st + 2 /\ gpudata second = next st /\
      gpudata third = next st + 1
  | SvdS s_gpu => gpudata s_gpu = next st
  end.
Proof.
  unfold svd. intros H.
  destruct cuv, fm; simpl in H; inv_binds H.
  all: inv_run.
  all: match goal with
       | E : match rev ?l with _ => _ end _ = _ |- _ =>
           destruct (rev l) as [|? [|? [|? ?]]]; try discriminate E;
           inversion E; subst; clear E
       end.
  all: match goal with
       | E : call_gesvd _ _ _ _ _ _ _ _ _ _ _ _ _ = _ |- _ =>
           apply call_gesvd_grown in E; simpl in E
       end.
  all: match goal with
       | G : grown 0 _ _ |- _ =>
           split; [refine (grown_trans 3 0 _ _ _ _ G); grown_solve
                  |simpl; repeat split; lia]
       end.
Qed.

Lemma distinct_cons x l :
  all_distinct (x :: l) = true -> ~ In x l /\ all_distinct l = true.
Proof.
  simpl. intros H. apply andb_true_iff in H as [Hx Hl]. split; [|exact Hl].
  intros Hin. apply negb_true_iff in Hx.
  assert (existsb (N.eqb x) l = true)
    by (apply existsb_exists; exists x; split; [exact Hin|apply N.eqb_refl]).
  congruence.
Qed.

(** Reclaiming arrays whose buffers are live and distinct frees each of
    them, in order, and nothing else. *)
Lemma reclaim_all_run locals : forall st,
  all_distinct (map gpudata locals) = true ->
  (forall a, In a locals -> is_Some (mem st !! gpudata a)) ->
  exists st',
    reclaim_all locals st = (Ok tt, st') /\
    next st' = next st /\
    trace st' = trace st ++ map EvFree (map gpudata locals) /\
    forall q, is_Some (mem st' !! q)
              <-> is_Some (mem st !! q) /\ ~ In q (map gpudata locals).
Proof.
  induction locals as [|a locals IH]; intros st Hnd Hlive.
  - exists st. split; [reflexivity|]. split; [reflexivity|].
    split; [simpl; now rewrite app_nil_r|]. intros q. simpl. tauto.
  - change (map gpudata (a :: locals)) with (gpudata a :: map gpudata locals) in *.
    apply distinct_cons in Hnd as [Hnotin Hnd].
    destruct (Hlive a (or_introl eq_refl)) as [l Hl].
    set (st1 := mkState (delete (gpudata a) (mem st)) (next st)
                        (trace st ++ [EvFree (gpudata a)])).
    destruct (IH st1 Hnd) as (st' & E & Hn & Ht & Hm).
    { intros b Hb. simpl. rewrite lookup_delete_ne.
      - apply Hlive. now right.
      - intros Heq. apply Hnotin. rewrite Heq. now apply in_map. }
    exists st'. split.
    + assert (Hrec : reclaim a st = (Ok tt, st1))
        by (unfold reclaim; now rewrite Hl).
      simpl. now rewrite (bind_Ok _ _ _ _ _ Hrec).
    + split; [exact Hn|]. split.
      * rewrite Ht. simpl. now rewrite <- app_assoc.
      * intros q. rewrite Hm. simpl.
        destruct (decide (q = gpudata a)) as [->|Hq].
        -- rewrite lookup_delete_eq. split; [intros [[x Hx] _]; discriminate|tauto].
        -- rewrite lookup_delete_ne by congruence. intuition congruence.
Qed.

(** Reclaiming never raises. *)
Lemma reclaim_all_returns locals : forall st,
  exists st', reclaim_all locals st = (Ok tt, st').
Proof.
  induction locals as [|a locals IH]; intros st; simpl; [eexists; reflexivity|].
  unfold bind, reclaim at 1. destruct (mem st !! gpudata a); apply IH.
Qed.

Lemma pinv_locals_distinct p : all_distinct (pinv_locals p) = true.
Proof.
  unfold pinv_locals, all_distinct, existsb.
  repeat rewrite (proj2 (N.eqb_neq _ _)) by lia. reflexivity.
Qed.

(** A run of [pinv] that returns: eight arrays were allocated and nothing
    was freed until the last product was computed; then the seven
    intermediate arrays went, and the eighth is the result. *)
Lemma pinv_inv a dev st a_inv st' :
  pinv a dev st = (Ok a_inv, st') ->
  gpudata a_inv = next st + 7 /\
  (exists evs,
     trace st' = trace st ++ evs ++ [EvCall "gemm"]
                 ++ map EvFree (pinv_locals (next st)) /\
     Forall (fun e => is_free e = false) evs) /\
  forall q, is_Some (mem st' !! q)
            <-> (is_Some (mem st !! q) \/ q = next st + 7)
                /\ ~ In q (pinv_locals (next st)).
Proof.
  unfold pinv. intros H.
  destruct (negb _); [discriminate H|].
  inv_binds H.
  match goal with
  | E : bind (svd _ _ _) _ _ = _ |- _ =>
      inv_binds E;
      match goal with
      | E' : svd _ _ _ _ = (Ok ?r, _) |- _ =>
          destruct r as [u_gpu s_gpu vh_gpu|]; [|discriminate E];
          inversion E; subst; clear E;
          apply svd_grown in E'; destruct E' as (G2 & Hu & Hs & Hvh)
      end
  end.
  repeat match goal with
         | E : conj _ _ _ = _ |- _ => apply conj_grown in E
         | E : ipow _ _ _ = _ |- _ => apply ipow_grown in E
         | E : transpose _ _ _ = _ |- _ =>
             apply transpose_grown in E; destruct E as [? ?]
         | E : diag _ _ _ = _ |- _ =>
             apply diag_grown in E; destruct E as [? ?]
         end.
  match goal with
  | E5 : dot _ _ ?s5 = (Ok _, ?s6), E6 : dot _ _ ?s6 = (Ok _, ?s7) |- _ =>
      apply dot_grown in E5; destruct E5 as (Hsuh & G7 & _);
      apply dot_grown in E6; destruct E6 as (Hinv & G8 & cells & Ht8)
  end.
  inversion H; subst; clear H.
  match goal with
  | G1 : grown 0 st ?s0, G3 : grown 1 ?s1 ?s2, G4 : grown 0 ?s2 ?s3,
    G5 : grown 1 ?s3 ?s4, G6 : grown 1 ?s4 ?s5 |- _ =>
      pose proof (grown_trans _ _ _ _ _ G1 G2) as G;
      pose proof (grown_trans _ _ _ _ _ G G3) as G';
      pose proof (grown_trans _ _ _ _ _ G' G4) as G'';
      pose proof (grown_trans _ _ _ _ _ G'' G5) as G''';
      pose proof (grown_trans _ _ _ _ _ G''' G6) as G'''';
      pose proof (grown_trans _ _ _ _ _ G'''' G7) as G6';
      pose proof (grown_trans _ _ _ _ _ G6' G8) as G7';
      simpl in G6', G7';
      destruct G1 as (N1 & _), G2 as (N2 & _), G3 as (N3 & _), G4 as (N4 & _),
               G5 as (N5 & _), G6 as (N6 & _), G7 as (N7 & _)
  end.
  match goal with
  | E7 : reclaim_all ?l _ = _ |- _ =>
      assert (Hloc : map gpudata l = pinv_locals (next st))
        by (unfold pinv_locals; simpl; repeat f_equal; lia)
  end.
  destruct G7' as (_ & Hdom & _).
  destruct G6' as (_ & _ & evs6 & Ht6 & Hf6).
  match goal with
  | E7 : reclaim_all ?l ?s = _ |- _ =>
      destruct (reclaim_all_run l s) as (st'' & E' & _ & Ht' & Hm');
      [ rewrite Hloc; apply pinv_locals_distinct
      | intros b Hb; apply Hdom; right; simpl in Hb; intuition (subst; lia)
      | rewrite E' in E7; inversion E7; subst st''; clear E7 ]
  end.
  split; [lia|]. split.
  - exists (evs6 ++ [EvAlloc (next st6) cells]).
    rewrite Ht', Ht8, Ht6, Hloc. split; [now rewrite <- !app_assoc|].
    apply Forall_app. split; [exact Hf6|repeat constructor].
  - intros q. rewrite Hm', Hdom, Hloc. unfold pinv_locals. simpl. intuition lia.
Qed.

(** ** The pseudoinverse *)

(** C1.  The claim is that [pinv] returns the pseudoinverse of every float32
    or complex64 matrix.  On a complex64 matrix it does not return at all:
    [svd] makes S a float32 array whatever the input, so Sigma+ is float32
    while U^H is complex64, and the first product raises the [ValueError]
    of [dot] for mixed types. *)
Theorem pinv_complex64_raises a dev st rows cols :
  dtype_of a = complex64 ->
  shape a = [rows; cols] ->
  live st a ->
  gesvd_succeeds culaDeviceCgesvd ->
  exists st',
    pinv a dev st =
    (Raise (ValueError "unsupported combination of input types"), st').
Proof.
  intros Hd Hs Hl HC.
  apply (pinv_reaches_products a dev st rows cols
           (fun o => exists st', o = (Raise (ValueError "unsupported combination of input types"), st')));
    try assumption.
  - now rewrite Hd.
  - rewrite Hd. discriminate.
  - intros _. exact HC.
  - intros u_gpu s_gpu vh_gpu s_diag_gpu uh_gpu v_gpu st' k [Hsd _] [Huh _] _ _ _.
    exists st'. apply bind_Raise. apply dot_mixed_types.
    + now rewrite Hsd.
    + rewrite Hsd, Huh, Hd. discriminate.
Qed.

(** C2, as the code has it.  The inversion [s_gpu **= -1] is an
    unconditional elementwise power and nothing in [pinv] looks at the
    singular values: on every float32 matrix, whatever its singular values,
    [pinv] returns an array of the transposed shape as soon as CULA and
    CUBLAS report success. *)
Theorem pinv_float32_returns a dev st rows cols :
  dtype_of a = float32 ->
  shape a = [rows; cols] ->
  live st a ->
  gesvd_succeeds culaDeviceSgesvd ->
  gemm_succeeds cublasSgemm ->
  exists a_inv st',
    pinv a dev st = (Ok a_inv, st') /\
    shape a_inv = [cols; rows] /\ dtype_of a_inv = float32 /\ live st' a_inv.
Proof.
  intros Hd Hs Hl HS HG.
  assert (Hret : exists a_inv st',
             pinv a dev st = (Ok a_inv, st') /\
             shape a_inv = [cols; rows] /\ dtype_of a_inv = float32).
  { apply (pinv_reaches_products a dev st rows cols
             (fun o => exists a_inv st',
                         o = (Ok a_inv, st') /\
                         shape a_inv = [cols; rows] /\ dtype_of a_inv = float32));
      try assumption.
    - now rewrite Hd.
    - intros _. exact HS.
    - rewrite Hd. discriminate.
    - intros u_gpu s_gpu vh_gpu s_diag_gpu uh_gpu v_gpu st1 k
             [Hsd Ssd] [Huh Suh] [Hv Sv] (Lsd & Luh & Lv) _.
      rewrite Hd in Huh, Hv.
      assert (HG' : forall d, d = float32 ->
                      (d = float32 -> gemm_succeeds cublasSgemm) /\
                      (d = float64 -> gemm_succeeds cublasDgemm) /\
                      (d = complex64 -> gemm_succeeds cublasCgemm) /\
                      (d = complex128 -> gemm_succeeds cublasZgemm))
        by (intros d ->; repeat split; (discriminate || (intros _; exact HG))).
      destruct (HG' _ Hsd) as (G1 & G2 & G3 & G4).
      destruct (dot_returns s_diag_gpu uh_gpu st1 (k * 1) (k * 1) k rows)
        as (suh_gpu & st2 & E1 & Hsuh & Lsuh & K1); try assumption.
      { now rewrite Hsd. }
      { now rewrite Hsd, Huh. }
      rewrite (bind_Ok _ _ _ _ _ E1).
      destruct (HG' _ Hv) as (G1' & G2' & G3' & G4').
      destruct (dot_returns v_gpu suh_gpu st2 cols k (k * 1) rows)
        as (a_inv & st3 & E2 & Hinv & Linv & K2); try assumption.
      { now rewrite Hv. }
      { subst suh_gpu. simpl. now rewrite Hsd, Hv. }
      { subst suh_gpu. reflexivity. }
      { eapply keeps_live; [exact K1|exact Lv]. }
      rewrite (bind_Ok _ _ _ _ _ E2).
      destruct (reclaim_all_returns
                  [u_gpu; s_gpu; vh_gpu; uh_gpu; s_diag_gpu; v_gpu; suh_gpu] st3)
        as (st4 & E3).
      rewrite (bind_Ok _ _ _ _ _ E3).
      exists a_inv, st4. subst a_inv. split; [reflexivity|]. simpl. auto. }
  destruct Hret as (a_inv & st' & E & Hshape & Hdt).
  exists a_inv, st'. split; [exact E|]. split; [exact Hshape|]. split; [exact Hdt|].
  destruct (pinv_inv a dev st a_inv st' E) as (Ha & _ & Hdom).
  unfold live. apply Hdom. split; [right; exact Ha|].
  rewrite Ha. unfold pinv_locals. simpl. lia.
Qed.

(** A computation that raises after a quiet first step has released
    nothing, if what follows the step has released nothing when it raises. *)
Lemma raises_keeps_bind {A B} (c : M A) (k : A -> M B) st e st' :
  quiet c ->
  (forall a st1, k a st1 = (Raise e, st') -> keeps st1 st') ->
  bind c k st = (Raise e, st') -> keeps st st'.
Proof.
  intros Hq Hk H. unfold bind in H.
  pose proof (Hq st) as Hc. unfold spec in Hc.
  destruct (c st) as [[a|e1] st1]; simpl in Hc.
  - eapply keeps_trans; [exact Hc|]. eapply Hk, H.
  - inversion H; subst. exact Hc.
Qed.

(** C7, as the code has it.  [pinv] keeps every intermediate array to the
    end: in a run that returns, nothing is freed until the last product has
    been computed, whatever was consumed long before; then, as [pinv]
    returns, the seven intermediate arrays are freed, and what is allocated
    afterwards is the result and what was allocated before the call, the
    input among it. *)
Theorem pinv_releases_at_return a dev st a_inv st' :
  well_formed st ->
  pinv a dev st = (Ok a_inv, st') ->
  (exists evs,
     trace st' = trace st ++ evs ++ [EvCall "gemm"]
                 ++ map EvFree (pinv_locals (next st)) /\
     Forall (fun e => is_free e = false) evs) /\
  (forall q, is_Some (mem st' !! q) <-> q = gpudata a_inv \/ is_Some (mem st !! q)).
Proof.
  intros Hwf H.
  destruct (pinv_inv a dev st a_inv st' H) as (Ha & Ht & Hdom).
  split; [exact Ht|].
  intros q. rewrite Hdom, Ha. unfold pinv_locals. simpl. split.
  - tauto.
  - intros [->|[l Hl]].
    + split; [now right|lia].
    + split; [left; eauto|]. apply Hwf in Hl. simpl in Hl. lia.
Qed.

(** ** Conjugation of real matrices *)

(** C9.  On a float32 or float64 matrix [conj] returns at once: the result
    is [None], and the device is exactly as it was, its memory untouched
    and no call logged. *)
Theorem conj_real_is_noop a dev st :
  dtype_in (dtype_of a) [float32; float64] = true ->
  conj a dev st = (Ok tt, st).
Proof. intros Hd. unfold conj. now rewrite Hd. Qed.

(** ** Unsupported element types *)

(** C5, as the code has it.  [svd] and [pinv] (float32 and complex64 only)
    and [dot], [transpose], [conj] and [diag] (the four types) raise their
    [ValueError] on any other element type before anything is asked of the
    device: the state is the one they were started in.  [mdot] has no check
    of its own and relies on the one of [dot]: it rejects in this way only
    an unsupported first or second argument. *)
Theorem unsupported_type_rejected dev st :
  (forall a fm cuv, svd_supported (dtype_of a) = false ->
     svd a fm cuv st = (Raise (ValueError "unsupported type"), st)) /\
  (forall a, svd_supported (dtype_of a) = false ->
     pinv a dev st = (Raise (ValueError "unsupported type"), st)) /\
  (forall a b, supported (dtype_of a) = false \/ supported (dtype_of b) = false ->
     dot a b st = (Raise (ValueError "unsupported combination of input types"), st)) /\
  (forall a, supported (dtype_of a) = false ->
     transpose a dev st = (Raise (ValueError "unrecognized type"), st)) /\
  (forall a, supported (dtype_of a) = false ->
     conj a dev st = (Raise (ValueError "unsupported type"), st)) /\
  (forall v, supported (dtype_of v) = false ->
     diag v dev st = (Raise (ValueError "unrecognized type"), st)) /\
  (forall a b rest, supported (dtype_of a) = false \/ supported (dtype_of b) = false ->
     mdot (a :: b :: rest) st =
     (Raise (ValueError "unsupported combination of input types"), st)).
Proof.
  assert (Hdot : forall a b,
             supported (dtype_of a) = false \/ supported (dtype_of b) = false ->
             dot a b st = (Raise (ValueError "unsupported combination of input types"), st)).
  { intros a b H. unfold dot.
    destruct (dtype_of a), (dtype_of b); destruct H as [H|H];
      try discriminate H; reflexivity. }
  repeat split.
  - intros a fm cuv H. unfold svd. destruct (dtype_of a); try discriminate H; reflexivity.
  - intros a H. unfold pinv. unfold svd_supported in H. now rewrite H.
  - exact Hdot.
  - intros a H. unfold transpose. unfold supported in H. now rewrite H.
  - intros a H. unfold conj. destruct (dtype_of a); try discriminate H; reflexivity.
  - intros v H. unfold diag. unfold supported in H. now rewrite H.
  - intros a b rest H. simpl. apply bind_Raise. apply Hdot, H.
Qed.

(** ** The chained product *)

(** A product that returns allocated its result at the next address and
    called CUBLAS once. *)
Lemma dot_inv a b st c_gpu st' :
  dot a b st = (Ok c_gpu, st') ->
  gpudata c_gpu = next st /\ next st' = next st + 1 /\
  is_Some (mem st' !! gpudata a) /\
  exists cells, trace st' = trace st ++ [EvAlloc (next st) cells; EvCall "gemm"].
Proof.
  unfold dot, call_gemm. intros H.
  inv_binds H.
  match goal with
  | E : (if _ then _ else _) _ = (Ok _, _) |- _ =>
      repeat match type of E with
             | context [if ?c then _ else _] => destruct c
             end;
      inversion E; subst; clear E
  end.
  all: inv_prims.
  all: match goal with
       | E : (let '(_, _) := ?f in _) _ = (Ok _, _) |- _ =>
           destruct f as [status c']; inv_prims
       end.
  all: simpl; repeat split; auto; eexists; rewrite <- app_assoc; reflexivity.
Qed.

(** The log of [mdot]: when the loop returns, it has gone through one round
    for every argument after the first.  So every product but the last is
    freed as soon as the next product is computed, and so is the argument
    the loop started from. *)
Lemma mdot_loop_rounds rest : forall out_gpu st r st',
  mdot_loop out_gpu rest st = (Ok r, st') ->
  exists cells,
    length cells = length rest /\
    trace st' = trace st ++ rounds (gpudata out_gpu) (next st) cells.
Proof.
  induction rest as [|next_gpu rest IH]; intros out_gpu st r st' H; simpl in H.
  - inversion H; subst. exists []. split; [reflexivity|]. now rewrite app_nil_r.
  - inv_binds H.
    match goal with
    | E : dot _ _ _ = _ |- _ =>
        apply dot_inv in E; destruct E as (Hc & Hn & Hlive & cells1 & Ht)
    end.
    match goal with
    | E : free _ _ = _ |- _ =>
        unfold free in E; destruct (mem _ !! _); [|discriminate E];
        inversion E; subst; clear E
    end.
    apply IH in H. destruct H as (cells & Hlen & Ht'). simpl in Ht'.
    exists (cells1 :: cells). split; [simpl; now rewrite Hlen|].
    rewrite Ht', Ht, Hc, Hn. simpl. now rewrite <- !app_assoc.
Qed.

(** C3.  The claim has [mdot] never free the buffer of its first argument.
    The loop frees [out_gpu] after every product, and in the first round
    [out_gpu] is [args[0]]: whenever [mdot] returns from a call with two
    arguments or more, it has freed the buffer of the first. *)
Theorem mdot_frees_first_input a b rest st r st' :
  mdot (a :: b :: rest) st = (Ok r, st') ->
  exists evs, trace st' = trace st ++ evs /\ In (EvFree (gpudata a)) evs.
Proof.
  intros H. apply mdot_loop_rounds in H.
  destruct H as ([|c cells] & Hlen & Ht); [discriminate Hlen|].
  eexists. split; [exact Ht|]. simpl. auto.
Qed.

(** ** Exact runs *)

Lemma run_bind {A B} (c : M A) (k : A -> M B) st a st1 o :
  c st = (Ok a, st1) -> k a st1 = o -> bind c k st = o.
Proof. intros Hc Hk. now rewrite (bind_Ok _ _ _ _ _ Hc). Qed.

Lemma run_load p st l : mem st !! p = Some l -> load p st = (Ok l, st).
Proof. intros H. unfold load. now rewrite H. Qed.

(** Looks a concrete address up in a memory built by insertions. *)
Ltac lookup_mem :=
  simpl;
  repeat first [ rewrite lookup_insert_eq | rewrite lookup_insert_ne by lia ];
  first [ reflexivity | eassumption ].

Lemma call_gesvd_run f jobu jobvt m n a lda s u ldu vt ldvt st
    a_buf status a' s' u' vt' :
  mem st !! a = Some a_buf ->
  is_Some (mem st !! s) -> is_Some (mem st !! u) -> is_Some (mem st !! vt) ->
  f jobu jobvt m n a_buf lda ldu ldvt = (status, (a', s', u', vt')) ->
  call_gesvd f jobu jobvt m n a lda s u ldu vt ldvt st =
  (Ok status,
   mkState (<[vt := vt']> (<[u := u']> (<[s := s']> (<[a := a']> (mem st)))))
           (next st) (trace st ++ [EvCall "gesvd"])).
Proof.
  intros Ha [ls Hs] [lu Hu] [lvt Hvt] Hf. unfold call_gesvd.
  eapply run_bind; [apply run_load, Ha|].
  eapply run_bind; [apply run_load, Hs|].
  eapply run_bind; [apply run_load, Hu|].
  eapply run_bind; [apply run_load, Hvt|].
  eapply run_bind; [reflexivity|].
  rewrite Hf. reflexivity.
Qed.

Ltac run_exact :=
  lazymatch goal with
  | |- bind _ _ _ = _ => eapply run_bind; [run_exact | cbv beta iota; simpl; run_exact]
  | |- load _ _ = _ => apply run_load; lookup_mem
  | |- call_gesvd _ _ _ _ _ _ _ _ _ _ _ _ _ = _ =>
      eapply call_gesvd_run; [lookup_mem | simpl; auto 10 .. | eassumption]
  | |- _ => reflexivity
  end.

(** ** The singular value decomposition *)



(** C10.  The array of singular values [svd] returns has element type
    float32 on every supported input, complex64 included. *)
Theorem svd_singular_values_float32 a fm cuv st rows cols :
  svd_supported (dtype_of a) = true ->
  shape a = [rows; cols] ->
  live st a ->
  (dtype_of a = float32 -> gesvd_succeeds culaDeviceSgesvd) ->
  (dtype_of a = complex64 -> gesvd_succeeds culaDeviceCgesvd) ->
  exists r st',
    svd a fm cuv st = (Ok r, st') /\ dtype_of (singular_values r) = float32.
Proof.
  intros Hd Hs Hl HS HC.
  destruct (svd_returns a fm cuv st rows cols Hd Hs Hl HS HC)
    as (r & st' & E & Hr & _).
  exists r, st'. split; [exact E|]. subst r. now destruct cuv.
Qed.

(** ** Transposition *)

Lemma In_Nrange idx count : idx < count -> In idx (Nrange count).
Proof.
  intros H. unfold Nrange. apply in_map_iff. exists (N.to_nat idx).
  split; [apply N2Nat.id|]. apply in_seq. lia.
Qed.

Lemma covered_In dev data_shape count idx :
  covered dev data_shape count = true ->
  idx < count ->
  In idx (launch_indices dev (select_block_grid_sizes dev data_shape)).
Proof.
  intros Hc Hi. unfold covered in Hc.
  rewrite forallb_forall in Hc. specialize (Hc idx (In_Nrange _ _ Hi)).
  apply existsb_exists in Hc. destruct Hc as (x & Hin & Heq).
  apply N.eqb_eq in Heq. now subst x.
Qed.

Lemma u32_small x : x < 2 ^ 32 -> u32 x = x.
Proof. intros H. unfold u32. now apply N.mod_small. Qed.

Lemma idx_split m n idx :
  idx < m * n -> idx / n < m /\ idx mod n < n /\ idx / n * n + idx mod n = idx.
Proof.
  intros H.
  assert (Hn : n <> 0) by (intros ->; lia).
  pose proof (N.div_mod idx n Hn) as E.
  pose proof (N.mod_lt idx n Hn) as L.
  repeat split; try lia.
  apply N.Div0.div_lt_upper_bound; lia.
Qed.

Lemma dst_split m i j : i < m -> (j * m + i) mod m = i /\ (j * m + i) / m = j.
Proof.
  intros H. assert (Hm : m <> 0) by lia.
  split.
  - rewrite N.add_comm, N.Div0.mod_add. now apply N.mod_small.
  - rewrite N.add_comm, N.div_add by exact Hm. rewrite N.div_small by exact H. lia.
Qed.

Section TransposeKernel.

Variables (use_double use_complex : bool) (mtpb mbpg : N).
Variables (m n : N) (idata : list elem).
Hypothesis Hfit : m * n < 2 ^ 32.

(** The thread function of a launch on an [m] x [n] matrix, and what it
    should leave in the cell at a linear position. *)
Local Abbreviation F :=
  (transpose_kernel use_double use_complex mtpb mbpg n m idata (u32 (m * n))).
Local Abbreviation want := (transposed_cell use_complex m n idata).

Lemma transpose_kernel_length od t : length (F od t) = length od.
Proof.
  unfold transpose_kernel. destruct (_ <? _); [apply length_insert|reflexivity].
Qed.

Lemma transpose_kernel_keeps od t p :
  p < m * n ->
  od !! N.to_nat p = Some (want p) ->
  F od t !! N.to_nat p = Some (want p).
Proof.
  intros Hp Hod. unfold transpose_kernel.
  set (idx := thread_idx mtpb mbpg t).
  rewrite (u32_small _ Hfit).
  destruct (idx <? m * n) eqn:Hlt; [|exact Hod].
  apply N.ltb_lt in Hlt.
  destruct (idx_split m n idx Hlt) as (Hx & Hy & Hxy).
  assert (Hdst : idx mod n * m + idx / n < m * n) by nia.
  rewrite (u32_small (idx mod n * m + idx / n)) by lia.
  rewrite Hxy, (u32_small idx) by lia.
  destruct (decide (idx mod n * m + idx / n = p)) as [<-|Hne].
  - rewrite list_lookup_insert_eq by (apply lookup_lt_Some in Hod; exact Hod).
    unfold transposed_cell. destruct (dst_split m (idx / n) (idx mod n) Hx) as [-> ->].
    now rewrite Hxy.
  - rewrite list_lookup_insert_ne by lia. exact Hod.
Qed.

Lemma transpose_kernel_writes od t :
  let idx := thread_idx mtpb mbpg t in
  idx < m * n ->
  length od = N.to_nat (m * n) ->
  F od t !! N.to_nat (idx mod n * m + idx / n) = Some (want (idx mod n * m + idx / n)).
Proof.
  intros idx Hlt Hlen. unfold transpose_kernel. fold idx.
  rewrite (u32_small _ Hfit).
  apply N.ltb_lt in Hlt. rewrite Hlt. apply N.ltb_lt in Hlt.
  destruct (idx_split m n idx Hlt) as (Hx & Hy & Hxy).
  assert (Hdst : idx mod n * m + idx / n < m * n) by nia.
  rewrite (u32_small (idx mod n * m + idx / n)) by lia.
  rewrite Hxy, (u32_small idx) by lia.
  rewrite list_lookup_insert_eq by lia.
  unfold transposed_cell. destruct (dst_split m (idx / n) (idx mod n) Hx) as [-> ->].
  now rewrite Hxy.
Qed.

Lemma transpose_fold_keeps ts : forall od p,
  p < m * n ->
  od !! N.to_nat p = Some (want p) ->
  fold_left F ts od !! N.to_nat p = Some (want p).
Proof.
  induction ts as [|t ts IH]; intros od p Hp Hod; simpl; [exact Hod|].
  apply IH; [exact Hp|]. now apply transpose_kernel_keeps.
Qed.

Lemma transpose_fold_length ts : forall od, length (fold_left F ts od) = length od.
Proof.
  induction ts as [|t ts IH]; intros od; simpl; [reflexivity|].
  now rewrite IH, transpose_kernel_length.
Qed.

Lemma transpose_fold_writes ts : forall od idx,
  length od = N.to_nat (m * n) ->
  idx < m * n ->
  In idx (map (thread_idx mtpb mbpg) ts) ->
  fold_left F ts od !! N.to_nat (idx mod n * m + idx / n)
  = Some (want (idx mod n * m + idx / n)).
Proof.
  induction ts as [|t ts IH]; intros od idx Hlen Hlt Hin; simpl in *; [contradiction|].
  destruct Hin as [Heq|Hin].
  - apply transpose_fold_keeps.
    + destruct (idx_split m n idx Hlt) as (Hx & Hy & Hxy). nia.
    + subst idx. now apply transpose_kernel_writes.
  - apply IH; [|exact Hlt|exact Hin]. now rewrite transpose_kernel_length.
Qed.

(** After a launch that reaches every index, cell (j, i) of the output
    holds [CONJ] of cell (i, j) of the input. *)
Lemma transpose_launch ts od i j :
  length od = N.to_nat (m * n) ->
  (forall idx, idx < m * n -> In idx (map (thread_idx mtpb mbpg) ts)) ->
  i < m -> j < n ->
  fold_left F ts od !! N.to_nat (j * m + i)
  = Some (CONJ use_complex (idata !!! N.to_nat (i * n + j))).
Proof.
  intros Hlen Hcov Hi Hj.
  assert (Hlt : i * n + j < m * n) by nia.
  pose proof (transpose_fold_writes ts od (i * n + j) Hlen Hlt (Hcov _ Hlt)) as H.
  destruct (dst_split n j i Hj) as [Hmod Hdiv].
  rewrite Hmod, Hdiv in H. rewrite H. unfold transposed_cell.
  destruct (dst_split m i j Hi) as [-> ->]. reflexivity.
Qed.

End TransposeKernel.

Lemma transpose_run a dev st rows cols idata :
  supported (dtype_of a) = true ->
  shape a = [rows; cols] ->
  mem st !! gpudata a = Some idata ->
  gpudata a < next st ->
  transpose a dev st =
  (Ok (mkGPUArray (next st) [cols; rows] (dtype_of a)),
   mkState
     (<[next st :=
          fold_left
            (transpose_kernel (dtype_in (dtype_of a) [float64; complex128])
                              (dtype_in (dtype_of a) [complex64; complex128])
                              (max_threads_per_block dev) (max3 (max_grid_dim dev))
                              cols rows idata (u32 (rows * cols)))
            (grid_threads (fst (select_block_grid_sizes dev (shape a)))
                          (snd (select_block_grid_sizes dev (shape a))))
            (replicate (N.to_nat (rows * cols)) Undef)]> (mem st))
     (next st + 1)
     (trace st ++ [EvCompile "transpose"; EvAlloc (next st) (rows * cols);
                   EvLaunch "transpose" (fst (select_block_grid_sizes dev (shape a)))
                            (snd (select_block_grid_sizes dev (shape a)))])).
Proof.
  intros Hd Hs Hm Hlt.
  unfold transpose. unfold supported in Hd. rewrite Hd.
  change (negb true) with false. cbv iota.
  unfold get_dev_attrs, size.
  destruct (select_block_grid_sizes dev (shape a)) as [block grid].
  unfold shape_at. rewrite Hs. simpl.
  etransitivity; [run_exact|].
  rewrite insert_insert_eq, !N.mul_1_r, (N.mul_comm cols rows), <- !app_assoc.
  reflexivity.
Qed.

(** C6.  On an [m] x [n] matrix of a supported type [transpose] returns a
    new [n] x [m] matrix whose cell (j, i) is cell (i, j) of the input,
    conjugated when the type is complex; the input and every other buffer
    are as they were.  The matrix is to have fewer than 2^32 cells (the
    kernel counts in [unsigned int]) and the grid is to reach each of
    them. *)
Theorem transpose_is_hermitian a dev st m n idata :
  supported (dtype_of a) = true ->
  shape a = [m; n] ->
  m * n < 2 ^ 32 ->
  mem st !! gpudata a = Some idata ->
  length idata = N.to_nat (m * n) ->
  gpudata a < next st ->
  covered dev (shape a) (m * n) = true ->
  exists at_gpu odata st',
    transpose a dev st = (Ok at_gpu, st') /\
    (shape at_gpu = [n; m] /\ dtype_of at_gpu = dtype_of a) /\
    (forall p, p <> gpudata at_gpu -> mem st' !! p = mem st !! p) /\
    gpudata at_gpu <> gpudata a /\
    mem st' !! gpudata at_gpu = Some odata /\
    length odata = N.to_nat (n * m) /\
    forall i j, i < m -> j < n ->
      odata !! N.to_nat (j * m + i)
      = (if dtype_in (dtype_of a) [complex64; complex128] then cuConj else id)
          <$> idata !! N.to_nat (i * n + j).
Proof.
  intros Hd Hs Hfit Hm Hlen Hlt Hcov.
  eexists _, _, _. split; [apply (transpose_run a dev st m n idata Hd Hs Hm Hlt)|].
  simpl. split; [split; reflexivity|].
  split; [intros p Hp; now rewrite lookup_insert_ne by congruence|].
  split; [lia|].
  split; [apply lookup_insert_eq|].
  split.
  - rewrite transpose_fold_length, length_replicate. f_equal. lia.
  - intros i j Hi Hj.
    rewrite transpose_launch; try assumption.
    + assert (Hin : (N.to_nat (i * n + j) < length idata)%nat) by (rewrite Hlen; nia).
      destruct (lookup_lt_is_Some_2 _ _ Hin) as [x Hx].
      rewrite Hx, (list_lookup_total_correct _ _ _ Hx). simpl.
      unfold CONJ.
      match goal with
      | |- context [if ?b then cuConj else id] => destruct b
      end; reflexivity.
    + apply length_replicate.
    + intros idx Hidx. exact (covered_In _ _ _ _ Hcov Hidx).
Qed.

(** ** The diagonal matrix *)

Section DiagKernel.

Variables (use_double : bool) (mtpb mbpg : N).
Variables (k count : N) (v : list elem).

(** The thread function of a launch on a vector of [k] cells, and what it
    should leave in the cell at a linear position. *)
Local Abbreviation F := (diag_kernel use_double mtpb mbpg k v count).
Local Abbreviation want := (diag_cell k v).

Lemma diag_kernel_length d t : length (F d t) = length d.
Proof.
  unfold diag_kernel.
  destruct (_ <? _); [|reflexivity]. destruct (_ =? _); apply length_insert.
Qed.

Lemma diag_fold_length ts : forall d, length (fold_left F ts d) = length d.
Proof.
  induction ts as [|t ts IH]; intros d; simpl; [reflexivity|].
  now rewrite IH, diag_kernel_length.
Qed.

(** A thread changes no cell but the one at its own index. *)
Lemma diag_kernel_other d t p :
  thread_idx mtpb mbpg t <> p ->
  F d t !! N.to_nat p = d !! N.to_nat p.
Proof.
  intros Hne. unfold diag_kernel.
  destruct (_ <? _); [|reflexivity].
  destruct (_ =? _); rewrite list_lookup_insert_ne by lia; reflexivity.
Qed.

(** A cell no thread has the index of is left as it was. *)
Lemma diag_fold_unreached ts : forall d p,
  existsb (N.eqb p) (map (thread_idx mtpb mbpg) ts) = false ->
  fold_left F ts d !! N.to_nat p = d !! N.to_nat p.
Proof.
  induction ts as [|t ts IH]; intros d p H; simpl in *; [reflexivity|].
  apply orb_false_iff in H. destruct H as [Hne H].
  apply N.eqb_neq in Hne.
  rewrite IH by exact H. apply diag_kernel_other. congruence.
Qed.

Lemma diag_kernel_keeps d t p :
  d !! N.to_nat p = Some (want p) ->
  F d t !! N.to_nat p = Some (want p).
Proof.
  intros Hd.
  destruct (decide (thread_idx mtpb mbpg t = p)) as [Heq|Hne];
    [|now rewrite diag_kernel_other].
  unfold diag_kernel. rewrite Heq.
  destruct (p <? count); [|exact Hd].
  apply lookup_lt_Some in Hd. unfold diag_cell.
  destruct (p / k =? p mod k); now rewrite list_lookup_insert_eq.
Qed.

Lemma diag_fold_keeps ts : forall d p,
  d !! N.to_nat p = Some (want p) ->
  fold_left F ts d !! N.to_nat p = Some (want p).
Proof.
  induction ts as [|t ts IH]; intros d p Hd; simpl; [exact Hd|].
  apply IH. now apply diag_kernel_keeps.
Qed.

Lemma diag_fold_writes ts : forall d p,
  p < count ->
  (N.to_nat p < length d)%nat ->
  In p (map (thread_idx mtpb mbpg) ts) ->
  fold_left F ts d !! N.to_nat p = Some (want p).
Proof.
  induction ts as [|t ts IH]; intros d p Hp Hlen Hin; simpl in *; [contradiction|].
  destruct Hin as [Heq|Hin].
  - apply diag_fold_keeps. unfold diag_kernel. rewrite Heq.
    apply N.ltb_lt in Hp. rewrite Hp. unfold diag_cell.
    destruct (p / k =? p mod k); now rewrite list_lookup_insert_eq.
  - apply IH; [exact Hp| |exact Hin]. now rewrite diag_kernel_length.
Qed.

End DiagKernel.

Lemma diag_run v_gpu dev st v :
  is_real (dtype_of v_gpu) = true ->
  mem st !! gpudata v_gpu = Some v ->
  gpudata v_gpu < next st ->
  diag v_gpu dev st =
  (Ok (mkGPUArray (next st) [size v_gpu; size v_gpu] (dtype_of v_gpu)),
   mkState
     (<[next st :=
          fold_left
            (diag_kernel (dtype_in (dtype_of v_gpu) [float64; complex128])
                         (max_threads_per_block dev) (max3 (max_grid_dim dev))
                         (size v_gpu) v (u32 (size v_gpu * size v_gpu)))
            (grid_threads (fst (select_block_grid_sizes dev (shape v_gpu)))
                          (snd (select_block_grid_sizes dev (shape v_gpu))))
            (replicate (N.to_nat (size v_gpu * size v_gpu)) Undef)]> (mem st))
     (next st + 1)
     (trace st ++ [EvCompile "diag"; EvAlloc (next st) (size v_gpu * size v_gpu);
                   EvLaunch "diag" (fst (select_block_grid_sizes dev (shape v_gpu)))
                            (snd (select_block_grid_sizes dev (shape v_gpu)))])).
Proof.
  intros Hd Hm Hlt.
  assert (Hsup : dtype_in (dtype_of v_gpu) [float32; float64; complex64; complex128]
                 = true)
    by (destruct (dtype_of v_gpu); try discriminate Hd; reflexivity).
  assert (Hcx : dtype_in (dtype_of v_gpu) [complex64; complex128] = false)
    by (destruct (dtype_of v_gpu); try discriminate Hd; reflexivity).
  unfold diag. rewrite Hsup, Hcx.
  change (negb true) with false. cbv iota.
  unfold get_dev_attrs.
  destruct (select_block_grid_sizes dev (shape v_gpu)) as [block grid].
  etransitivity; [run_exact|].
  unfold size at 1 4. simpl.
  rewrite insert_insert_eq, !N.mul_1_r, <- !app_assoc.
  reflexivity.
Qed.

(** C8.  The claim is a k x k matrix with the vector on its diagonal and
    zeros elsewhere.  On a float32 or float64 vector, the types its kernel
    compiles for, [diag] asks [select_block_grid_sizes] for a grid for the
    shape of the vector, k cells, and launches it over the k * k cells of
    the matrix: a cell whose index no thread of that grid computes is never
    written and is left as [gpuarray.empty] allocated it. *)
Theorem diag_leaves_unreached_cells v_gpu dev st v idx :
  is_real (dtype_of v_gpu) = true ->
  mem st !! gpudata v_gpu = Some v ->
  gpudata v_gpu < next st ->
  idx < size v_gpu * size v_gpu ->
  existsb (N.eqb idx)
          (launch_indices dev (select_block_grid_sizes dev (shape v_gpu))) = false ->
  exists d_gpu d st',
    diag v_gpu dev st = (Ok d_gpu, st') /\
    shape d_gpu = [size v_gpu; size v_gpu] /\
    mem st' !! gpudata d_gpu = Some d /\
    d !! N.to_nat idx = Some Undef.
Proof.
  intros Hd Hm Hlt Hidx Hun.
  eexists _, _, _. split; [apply (diag_run v_gpu dev st v Hd Hm Hlt)|].
  simpl. split; [reflexivity|]. split; [apply lookup_insert_eq|].
  rewrite diag_fold_unreached by exact Hun.
  apply lookup_replicate_2. lia.
Qed.

(** X1.  Had the grid reached every cell of the matrix, the cells would
    be the ones claimed: on a float32 or float64 vector, when the geometry
    chosen for the shape of the vector has a thread for each of the k * k
    cells, [diag] returns the matrix with the vector on its diagonal and
    zero elsewhere. *)
Lemma diag_when_covered v_gpu dev st v :
  is_real (dtype_of v_gpu) = true ->
  mem st !! gpudata v_gpu = Some v ->
  gpudata v_gpu < next st ->
  size v_gpu * size v_gpu < 2 ^ 32 ->
  covered dev (shape v_gpu) (size v_gpu * size v_gpu) = true ->
  exists d_gpu d st',
    diag v_gpu dev st = (Ok d_gpu, st') /\
    mem st' !! gpudata d_gpu = Some d /\
    forall i j, i < size v_gpu -> j < size v_gpu ->
      d !! N.to_nat (i * size v_gpu + j)
      = Some (if i =? j then v !!! N.to_nat i else Re f0).
Proof.
  intros Hd Hm Hlt Hfit Hcov.
  eexists _, _, _. split; [apply (diag_run v_gpu dev st v Hd Hm Hlt)|].
  simpl. split; [apply lookup_insert_eq|].
  intros i j Hi Hj.
  assert (Hp : i * size v_gpu + j < size v_gpu * size v_gpu) by nia.
  rewrite diag_fold_writes.
  - unfold diag_cell. destruct (dst_split (size v_gpu) j i Hj) as [-> ->]. reflexivity.
  - now rewrite u32_small.
  - rewrite length_replicate. lia.
  - exact (covered_In _ _ _ _ Hcov Hp).
Qed.

(** * More of the module *)

(** ** The product *)

Lemma call_gemm_run f tb ta m n k alpha b lda a ldb beta c ldc st
    b_buf a_buf c_buf status c' :
  mem st !! b = Some b_buf ->
  mem st !! a = Some a_buf ->
  mem st !! c = Some c_buf ->
  f tb ta m n k alpha b_buf lda a_buf ldb beta c_buf ldc = (status, c') ->
  call_gemm f tb ta m n k alpha b lda a ldb beta c ldc st =
  (Ok status,
   mkState (<[c := c']> (mem st)) (next st) (trace st ++ [EvCall "gemm"])).
Proof.
  intros Hb Ha Hc Hf. unfold call_gemm.
  eapply run_bind; [apply run_load, Hb|].
  eapply run_bind; [apply run_load, Ha|].
  eapply run_bind; [apply run_load, Hc|].
  eapply run_bind; [reflexivity|].
  rewrite Hf. reflexivity.
Qed.

(** The run of a product of two matrices of one supported type, whatever
    CUBLAS reports. *)
Lemma dot_run a b st ra ca rb cb a_buf b_buf status c' :
  supported (dtype_of a) = true ->
  dtype_of b = dtype_of a ->
  shape a = [ra; ca] ->
  shape b = [rb; cb] ->
  mem st !! gpudata a = Some a_buf ->
  mem st !! gpudata b = Some b_buf ->
  gpudata a < next st ->
  gpudata b < next st ->
  dot_call (dtype_of a) ra cb rb a_buf b_buf = (status, c') ->
  dot a b st =
  ((if Z.eqb status 0
    then Ok (mkGPUArray (next st) [ra; cb] (dtype_of a))
    else Raise (cublasError status)),
   mkState (<[next st := c']> (mem st)) (next st + 1)
           (trace st ++ [EvAlloc (next st) (ra * cb); EvCall "gemm"])).
Proof.
  intros Hd Hb Hsa Hsb Hma Hmb Hla Hlb Hcall.
  destruct a as [pa sa da], b as [pb sb db]. simpl in *. subst.
  unfold dot_call, gemm_of, is_complex in Hcall.
  unfold dot, shape_at; simpl.
  destruct da; try discriminate Hd; simpl in *.
  all: eapply run_bind; [reflexivity|]; cbv beta iota.
  all: do 5 (eapply run_bind; [reflexivity|]; cbv beta iota).
  all: eapply run_bind; [reflexivity|]; cbv beta iota; simpl.
  all: eapply run_bind;
    [ eapply call_gemm_run;
      [ lookup_mem | lookup_mem | lookup_mem
      | rewrite N.mul_1_r; exact Hcall ]
    | ].
  all: cbv beta; unfold cublasCheckStatus; destruct (Z.eqb status 0); simpl.
  all: unfold bind, ret, raise; simpl.
  all: rewrite insert_insert_eq, N.mul_1_r, <- !app_assoc; reflexivity.
Qed.

Section Product.

Variables eadd emul : elem -> elem -> elem.

(** X2.  [dot] hands CUBLAS its operands in the opposite order, so that a
    column-major [gemm] yields the row-major product: when the routine
    computes what BLAS documents and reports success, cell (i, j) of
    [dot(a, b)] for [a] of shape (ra, k) and [b] of shape (k, cb) is the
    inner product of row [i] of [a] and column [j] of [b], times one. *)
Theorem dot_is_row_major_product a b st ra k cb a_buf b_buf :
  supported (dtype_of a) = true ->
  dtype_of b = dtype_of a ->
  shape a = [ra; k] ->
  shape b = [k; cb] ->
  mem st !! gpudata a = Some a_buf ->
  mem st !! gpudata b = Some b_buf ->
  gpudata a < next st ->
  gpudata b < next st ->
  gemm_computes eadd emul (is_complex (dtype_of a)) (gemm_of (dtype_of a)) ->
  fst (dot_call (dtype_of a) ra cb k a_buf b_buf) = 0%Z ->
  exists c_gpu c st',
    dot a b st = (Ok c_gpu, st') /\
    (shape c_gpu = [ra; cb] /\ dtype_of c_gpu = dtype_of a) /\
    mem st' !! gpudata c_gpu = Some c /\
    forall i j, i < ra -> j < cb ->
      c !! N.to_nat (i * cb + j)
      = Some (emul (one_of (is_complex (dtype_of a)))
                (inner_product eadd emul (zero_of (is_complex (dtype_of a))) k
                   (fun l => b_buf !!! N.to_nat (l * cb + j))
                   (fun l => a_buf !!! N.to_nat (i * k + l)))).
Proof.
  intros Hd Hb Hsa Hsb Hma Hmb Hla Hlb Hgemm Hstatus.
  destruct (dot_call (dtype_of a) ra cb k a_buf b_buf) as [status c'] eqn:Hcall.
  simpl in Hstatus. subst status.
  eexists _, c', _.
  split; [apply (dot_run a b st ra k k cb a_buf b_buf 0%Z c'); assumption|].
  simpl. split; [split; reflexivity|]. split; [apply lookup_insert_eq|].
  intros i j Hi Hj.
  assert (Hcb : N.max 1 cb = cb) by lia.
  unfold dot_call in Hcall. rewrite Hcb in Hcall.
  destruct (Hgemm cb ra k (one_of (is_complex (dtype_of a))) b_buf cb a_buf k
                  (replicate (N.to_nat (ra * cb)) Undef) cb) as [_ Hcell].
  - lia.
  - rewrite length_replicate. lia.
  - specialize (Hcell j i Hj Hi). rewrite Hcall in Hcell. exact Hcell.
Qed.

End Product.

(** Whatever a product that returns was given, its result is at the next
    address and no other buffer has changed. *)
Lemma dot_inv_mem a b st c_gpu st' :
  dot a b st = (Ok c_gpu, st') ->
  gpudata c_gpu = next st /\
  forall p, p <> next st -> mem st' !! p = mem st !! p.
Proof.
  unfold dot, call_gemm. intros H.
  inv_binds H.
  match goal with
  | E : (if _ then _ else _) _ = (Ok _, _) |- _ =>
      repeat match type of E with
             | context [if ?c then _ else _] => destruct c
             end;
      inversion E; subst; clear E
  end.
  all: inv_prims.
  all: match goal with
       | E : (let '(_, _) := ?f in _) _ = (Ok _, _) |- _ =>
           destruct f as [status c']; inv_prims
       end.
  all: simpl; split; [reflexivity|].
  all: intros p Hp; now rewrite !lookup_insert_ne by congruence.
Qed.

(** The result of a product that returns is live. *)
Lemma dot_result_live a b st c_gpu st' :
  dot a b st = (Ok c_gpu, st') -> is_Some (mem st' !! next st).
Proof.
  intros H.
  pose proof (spec_run _ _ _ _ _ (quiet_dot a b st) H) as (_ & _ & evs & Ht & _ & Hal).
  destruct (dot_inv a b st c_gpu st' H) as (_ & _ & _ & cells & Ht').
  apply (Hal (next st) cells). rewrite Ht' in Ht.
  apply app_inv_head in Ht. subst evs. now left.
Qed.

(** X3.  [dot] writes to no buffer but the one it allocates for the
    result: when it returns, the result is a buffer that was not live
    before, and its operands and every other buffer hold what they held. *)
Theorem dot_leaves_operands a b st c_gpu st' :
  well_formed st ->
  dot a b st = (Ok c_gpu, st') ->
  mem st !! gpudata c_gpu = None /\
  is_Some (mem st' !! gpudata c_gpu) /\
  forall p, p <> gpudata c_gpu -> mem st' !! p = mem st !! p.
Proof.
  intros Hwf H.
  destruct (dot_inv_mem a b st c_gpu st' H) as (Hc & Hmem).
  rewrite Hc. split; [|split; [|exact Hmem]].
  - destruct (mem st !! next st) as [l|] eqn:E; [|reflexivity].
    apply Hwf in E. lia.
  - exact (dot_result_live a b st c_gpu st' H).
Qed.

(** X4.  The type check of [dot]: unless both operands have one and the
    same supported type, [dot] raises its [ValueError] with nothing asked
    of the device; float32 with float64 is refused like any other mix. *)
Theorem dot_type_check a b st :
  supported (dtype_of a) && bool_decide (dtype_of a = dtype_of b) = false ->
  dot a b st = (Raise (ValueError "unsupported combination of input types"), st).
Proof.
  intros H. unfold dot.
  destruct (dtype_of a), (dtype_of b); try discriminate H; reflexivity.
Qed.

(** X5.  [dot] wants matrices: on operands of one supported type, a second
    operand with fewer than two dimensions, or a first operand with none,
    makes it raise [IndexError] before anything is allocated. *)
Theorem dot_wants_two_dimensions a b st :
  supported (dtype_of a) = true ->
  dtype_of b = dtype_of a ->
  (length (shape b) < 2)%nat \/ shape a = [] ->
  dot a b st = (Raise (IndexError "tuple index out of range"), st).
Proof.
  intros Hd Hb Hrank.
  destruct a as [pa sa da], b as [pb sb db]. simpl in *. subst db.
  unfold dot, shape_at; simpl.
  destruct da; try discriminate Hd; simpl.
  all: destruct Hrank as [Hlen| ->];
    [ destruct sb as [|x [|y sb]]; simpl in Hlen; try lia; try reflexivity;
      destruct sa; reflexivity
    | destruct sb as [|x [|y sb]]; reflexivity ].
Qed.

(** X6.  A failure of CUBLAS is passed on as it is: when the routine
    leaves a status other than success, [dot] raises [cublasError] with
    that status, and the array it allocated for the result stays
    allocated. *)
Theorem dot_passes_status_on a b st ra ca rb cb a_buf b_buf :
  supported (dtype_of a) = true ->
  dtype_of b = dtype_of a ->
  shape a = [ra; ca] ->
  shape b = [rb; cb] ->
  mem st !! gpudata a = Some a_buf ->
  mem st !! gpudata b = Some b_buf ->
  gpudata a < next st ->
  gpudata b < next st ->
  fst (dot_call (dtype_of a) ra cb rb a_buf b_buf) <> 0%Z ->
  exists st',
    dot a b st
    = (Raise (cublasError (fst (dot_call (dtype_of a) ra cb rb a_buf b_buf))), st') /\
    is_Some (mem st' !! next st) /\ next st' = next st + 1.
Proof.
  intros Hd Hb Hsa Hsb Hma Hmb Hla Hlb Hstatus.
  destruct (dot_call (dtype_of a) ra cb rb a_buf b_buf) as [status c'] eqn:Hcall.
  simpl in *. eexists. split.
  - rewrite (dot_run a b st ra ca rb cb a_buf b_buf status c'); try assumption.
    apply Z.eqb_neq in Hstatus. rewrite Hstatus. reflexivity.
  - simpl. split; [auto|reflexivity].
Qed.

(** X7.  [dot] does not compare the inner dimensions of its operands:
    for [a] of shape (ra, ca) and [b] of shape (rb, cb), whatever [ca] and
    [rb], it allocates a result of shape (ra, cb), calls CUBLAS once with
    the row count of [b] as the inner dimension and as the leading
    dimension of [a], and returns what the routine left when it reports
    success. *)
Theorem dot_ignores_inner_dimensions a b st ra ca rb cb a_buf b_buf :
  supported (dtype_of a) = true ->
  dtype_of b = dtype_of a ->
  shape a = [ra; ca] ->
  shape b = [rb; cb] ->
  mem st !! gpudata a = Some a_buf ->
  mem st !! gpudata b = Some b_buf ->
  gpudata a < next st ->
  gpudata b < next st ->
  fst (dot_call (dtype_of a) ra cb rb a_buf b_buf) = 0%Z ->
  exists c_gpu st',
    dot a b st = (Ok c_gpu, st') /\
    shape c_gpu = [ra; cb] /\
    mem st' !! gpudata c_gpu = Some (snd (dot_call (dtype_of a) ra cb rb a_buf b_buf)) /\
    trace st' = trace st ++ [EvAlloc (next st) (ra * cb); EvCall "gemm"].
Proof.
  intros Hd Hb Hsa Hsb Hma Hmb Hla Hlb Hst.
  destruct (dot_call (dtype_of a) ra cb rb a_buf b_buf) as [status c'] eqn:Hcall.
  simpl in Hst. subst status.
  eexists _, _. split.
  - exact (dot_run a b st ra ca rb cb a_buf b_buf 0%Z c' Hd Hb Hsa Hsb Hma Hmb Hla Hlb Hcall).
  - simpl. split; [reflexivity|]. split; [apply lookup_insert_eq|reflexivity].
Qed.

(** ** Conjugation of complex matrices *)

Lemma all_distinct_cons x l :
  all_distinct (x :: l) = true ->
  existsb (N.eqb x) l = false /\ all_distinct l = true.
Proof.
  simpl. intros H. apply andb_true_iff in H. destruct H as [H1 H2].
  apply negb_true_iff in H1. auto.
Qed.

Section ConjKernel.

Variables (use_double : bool) (mtpb mbpg count : N).

Local Abbreviation F := (conj_kernel use_double mtpb mbpg count).

Lemma conj_kernel_length a t : length (F a t) = length a.
Proof.
  unfold conj_kernel. destruct (_ <? _); [apply length_insert|reflexivity].
Qed.

Lemma conj_fold_length ts : forall a, length (fold_left F ts a) = length a.
Proof.
  induction ts as [|t ts IH]; intros a; simpl; [reflexivity|].
  now rewrite IH, conj_kernel_length.
Qed.

(** When no two threads compute the same index, a cell is conjugated
    once if a thread has its index and the index is below the count, and
    is left alone otherwise. *)
Lemma conj_fold_cell ts : forall a p,
  all_distinct (map (thread_idx mtpb mbpg) ts) = true ->
  (N.to_nat p < length a)%nat ->
  fold_left F ts a !! N.to_nat p
  = Some (if existsb (N.eqb p) (map (thread_idx mtpb mbpg) ts) && (p <? count)
          then cuConj (a !!! N.to_nat p)
          else a !!! N.to_nat p).
Proof.
  induction ts as [|t ts IH]; intros a p Hnd Hp; simpl in *.
  - apply list_lookup_lookup_total_lt. exact Hp.
  - apply all_distinct_cons in Hnd. destruct Hnd as [Hfresh Hnd].
    rewrite IH by (rewrite ?conj_kernel_length; assumption).
    f_equal. unfold conj_kernel.
    destruct (N.eqb_spec p (thread_idx mtpb mbpg t)) as [Heq|Hne]; simpl.
    + rewrite <- Heq in *. rewrite Hfresh. simpl.
      destruct (p <? count); [|reflexivity].
      now rewrite list_lookup_total_insert_eq.
    + destruct (thread_idx mtpb mbpg t <? count); [|reflexivity].
      now rewrite list_lookup_total_insert_ne by lia.
Qed.

(** A launch that reaches every cell, each from one thread, conjugates
    the buffer. *)
Lemma conj_launch ts a :
  all_distinct (map (thread_idx mtpb mbpg) ts) = true ->
  length a = N.to_nat count ->
  forallb (fun idx => existsb (N.eqb idx) (map (thread_idx mtpb mbpg) ts))
          (Nrange count) = true ->
  fold_left F ts a = map cuConj a.
Proof.
  intros Hnd Hlen Hcov. apply list_eq. intros i.
  destruct (decide (i < length a)%nat) as [Hi|Hi].
  - replace i with (N.to_nat (N.of_nat i)) by apply Nat2N.id.
    rewrite conj_fold_cell by (rewrite ?Nat2N.id; assumption).
    rewrite forallb_forall in Hcov.
    rewrite (Hcov (N.of_nat i)) by (apply In_Nrange; lia).
    assert (Hlt : (N.of_nat i <? count) = true) by (apply N.ltb_lt; lia).
    rewrite Hlt. simpl. rewrite Nat2N.id, list_lookup_fmap.
    now rewrite (list_lookup_lookup_total_lt a i Hi).
  - rewrite !lookup_ge_None_2; [reflexivity| |].
    + rewrite length_map. lia.
    + rewrite conj_fold_length. lia.
Qed.

End ConjKernel.

(** The run of [conj] on a complex matrix. *)
Lemma conj_run a dev st buf :
  is_complex (dtype_of a) = true ->
  mem st !! gpudata a = Some buf ->
  length buf = N.to_nat (size a) ->
  size a < 2 ^ 32 ->
  covered dev (shape a) (size a) = true ->
  all_distinct (launch_indices dev (select_block_grid_sizes dev (shape a))) = true ->
  conj a dev st =
  (Ok tt,
   mkState (<[gpudata a := map cuConj buf]> (mem st)) (next st)
           (trace st ++ [EvCompile "conj";
                         EvLaunch "conj" (fst (select_block_grid_sizes dev (shape a)))
                                  (snd (select_block_grid_sizes dev (shape a)))])).
Proof.
  intros Hd Hm Hlen Hfit Hcov Hnd.
  unfold covered, launch_indices in *.
  unfold conj, get_dev_attrs.
  destruct (select_block_grid_sizes dev (shape a)) as [block grid]. simpl in *.
  rewrite u32_small by exact Hfit.
  destruct (dtype_of a); try discriminate Hd; simpl.
  all: etransitivity; [run_exact|].
  all: rewrite conj_launch by assumption.
  all: now rewrite <- !app_assoc.
Qed.

(** X8.  On a complex64 or complex128 matrix [conj] replaces every cell
    by its conjugate, in place: it allocates nothing and changes no other
    buffer.  The matrix is to have fewer than 2^32 cells, and the grid is
    to reach each of them from exactly one thread. *)
Theorem conj_conjugates_in_place a dev st buf :
  is_complex (dtype_of a) = true ->
  mem st !! gpudata a = Some buf ->
  length buf = N.to_nat (size a) ->
  size a < 2 ^ 32 ->
  covered dev (shape a) (size a) = true ->
  all_distinct (launch_indices dev (select_block_grid_sizes dev (shape a))) = true ->
  exists st',
    conj a dev st = (Ok tt, st') /\
    mem st' !! gpudata a = Some (map cuConj buf) /\
    (forall p, p <> gpudata a -> mem st' !! p = mem st !! p) /\
    next st' = next st.
Proof.
  intros Hd Hm Hlen Hfit Hcov Hnd.
  eexists. split; [apply (conj_run a dev st buf); assumption|].
  simpl. split; [apply lookup_insert_eq|].
  split; [|reflexivity].
  intros p Hp. now rewrite lookup_insert_ne by congruence.
Qed.

(** X9.  Conjugating twice gives the matrix back: after [conj] run twice
    on a complex matrix whose cells are complex numbers of a device where
    changing the sign twice is the identity, device memory is what it
    was. *)
Theorem conj_twice_restores a dev st buf :
  is_complex (dtype_of a) = true ->
  mem st !! gpudata a = Some buf ->
  length buf = N.to_nat (size a) ->
  size a < 2 ^ 32 ->
  covered dev (shape a) (size a) = true ->
  all_distinct (launch_indices dev (select_block_grid_sizes dev (shape a))) = true ->
  Forall (fun z => cuConj (cuConj z) = z) buf ->
  exists st1 st2,
    conj a dev st = (Ok tt, st1) /\
    conj a dev st1 = (Ok tt, st2) /\
    mem st2 = mem st.
Proof.
  intros Hd Hm Hlen Hfit Hcov Hnd Hinv.
  eexists _, _. split; [apply (conj_run a dev st buf); assumption|].
  split.
  - apply conj_run; try assumption.
    + simpl. apply lookup_insert_eq.
    + now rewrite length_map.
  - simpl. rewrite insert_insert_eq. apply insert_id. rewrite Hm. f_equal.
    clear -Hinv. induction Hinv as [|z l Hz _ IH]; simpl; [reflexivity|].
    rewrite Hz. f_equal. exact IH.
Qed.

(** ** Transposing twice *)

(** The cells after two transpositions: each went through [CONJ] twice. *)
Lemma transpose_twice_cells a dev st m n idata :
  supported (dtype_of a) = true ->
  shape a = [m; n] ->
  m * n < 2 ^ 32 ->
  mem st !! gpudata a = Some idata ->
  length idata = N.to_nat (m * n) ->
  gpudata a < next st ->
  covered dev [m; n] (m * n) = true ->
  covered dev [n; m] (n * m) = true ->
  exists at_gpu att_gpu st1 st2,
    transpose a dev st = (Ok at_gpu, st1) /\
    transpose at_gpu dev st1 = (Ok att_gpu, st2) /\
    (shape att_gpu = shape a /\ dtype_of att_gpu = dtype_of a) /\
    mem st2 !! gpudata att_gpu
    = Some (map (fun z => CONJ (is_complex (dtype_of a))
                            (CONJ (is_complex (dtype_of a)) z)) idata) /\
    mem st2 !! gpudata a = Some idata.
Proof.
  intros Hd Hs Hfit Hm Hlen Hlt Hcov1 Hcov2.
  pose proof (transpose_run a dev st m n idata Hd Hs Hm Hlt) as E1.
  set (at_gpu := mkGPUArray (next st) [n; m] (dtype_of a)) in *.
  match type of E1 with
  | context [<[next st := ?o]> (mem st)] => set (od1 := o) in *
  end.
  match type of E1 with
  | _ = (_, ?s1) => set (st1 := s1) in *
  end.
  assert (Hod1 : length od1 = N.to_nat (n * m))
    by (unfold od1; rewrite transpose_fold_length, length_replicate; f_equal; lia).
  assert (Hcell1 : forall i j, i < m -> j < n ->
            od1 !!! N.to_nat (j * m + i)
            = CONJ (is_complex (dtype_of a)) (idata !!! N.to_nat (i * n + j))).
  { intros i j Hi Hj. apply list_lookup_total_correct.
    unfold od1. apply transpose_launch; try assumption.
    - apply length_replicate.
    - intros idx Hidx. rewrite <- Hs in Hcov1. exact (covered_In _ _ _ _ Hcov1 Hidx). }
  assert (Hm1 : mem st1 !! gpudata at_gpu = Some od1) by apply lookup_insert_eq.
  assert (Hlt1 : gpudata at_gpu < next st1) by (simpl; lia).
  pose proof (transpose_run at_gpu dev st1 n m od1 Hd eq_refl Hm1 Hlt1) as E2.
  exists at_gpu. eexists. exists st1. eexists.
  split; [exact E1|]. split; [exact E2|].
  simpl. split; [split; [now rewrite Hs|reflexivity]|].
  split.
  - rewrite lookup_insert_eq. f_equal. apply list_eq. intros i0.
    destruct (decide (i0 < N.to_nat (m * n))%nat) as [Hi0|Hi0].
    + destruct (idx_split m n (N.of_nat i0) ltac:(lia)) as (Hx & Hy & Hxy).
      match goal with
      | |- ?l1 !! _ = ?l2 !! _ =>
          assert (Hcell2 : forall i j, i < m -> j < n ->
                    l1 !! N.to_nat (i * n + j) = l2 !! N.to_nat (i * n + j))
      end.
      { intros i j Hi Hj.
        rewrite (transpose_launch _ _ _ _ n m od1 ltac:(lia)); try assumption.
        - rewrite Hcell1 by assumption. rewrite list_lookup_fmap.
          rewrite (list_lookup_lookup_total_lt idata) by (rewrite Hlen; nia).
          reflexivity.
        - apply length_replicate.
        - intros idx Hidx. exact (covered_In _ _ _ _ Hcov2 Hidx). }
      specialize (Hcell2 _ _ Hx Hy). rewrite Hxy, Nat2N.id in Hcell2. exact Hcell2.
    + rewrite !lookup_ge_None_2; [reflexivity| |].
      * rewrite length_map. lia.
      * rewrite transpose_fold_length, length_replicate. lia.
  - rewrite !lookup_insert_ne by lia. exact Hm.
Qed.

(** X10.  Transposing twice gives the matrix back: the second result has
    the shape, the type and the cells of the input, which is unchanged.
    For a complex type this is the round trip of the Hermitian adjoint and
    needs that changing the sign twice is the identity on its cells. *)
Theorem transpose_twice_restores a dev st m n idata :
  supported (dtype_of a) = true ->
  shape a = [m; n] ->
  m * n < 2 ^ 32 ->
  mem st !! gpudata a = Some idata ->
  length idata = N.to_nat (m * n) ->
  gpudata a < next st ->
  covered dev [m; n] (m * n) = true ->
  covered dev [n; m] (n * m) = true ->
  (is_complex (dtype_of a) = true -> Forall (fun z => cuConj (cuConj z) = z) idata) ->
  exists at_gpu att_gpu st1 st2,
    transpose a dev st = (Ok at_gpu, st1) /\
    transpose at_gpu dev st1 = (Ok att_gpu, st2) /\
    (shape att_gpu = shape a /\ dtype_of att_gpu = dtype_of a) /\
    mem st2 !! gpudata att_gpu = Some idata /\
    mem st2 !! gpudata a = Some idata.
Proof.
  intros Hd Hs Hfit Hm Hlen Hlt Hcov1 Hcov2 Hinv.
  destruct (transpose_twice_cells a dev st m n idata Hd Hs Hfit Hm Hlen Hlt Hcov1 Hcov2)
    as (at_gpu & att_gpu & st1 & st2 & E1 & E2 & Hsh & Hcells & Ha).
  exists at_gpu, att_gpu, st1, st2. repeat split; try assumption; try apply Hsh.
  rewrite Hcells. f_equal.
  unfold CONJ. destruct (is_complex (dtype_of a)).
  - specialize (Hinv eq_refl). clear -Hinv.
    induction Hinv as [|z l Hz _ IH]; simpl; [reflexivity|].
    rewrite Hz. f_equal. exact IH.
  - apply map_id.
Qed.

(** ** The chained product, round by round *)

(** X11.  The log of [mdot]: a call that returns has gone through one round
    for every argument after the first, and a round allocates the product,
    calls CUBLAS and frees the left operand.  So every intermediate
    product is freed right after the product that consumes it is computed,
    before the next one is allocated. *)
Theorem mdot_log a rest st r st' :
  mdot (a :: rest) st = (Ok r, st') ->
  exists cells,
    length cells = length rest /\
    trace st' = trace st ++ rounds (gpudata a) (next st) cells.
Proof. intros H. exact (mdot_loop_rounds rest a st r st' H). Qed.

(** One round of the loop: the product appears at the next address and the
    left operand goes. *)
Lemma mdot_round out_gpu next_gpu st temp_gpu st1 st2 :
  dot out_gpu next_gpu st = (Ok temp_gpu, st1) ->
  free (gpudata out_gpu) st1 = (Ok tt, st2) ->
  gpudata out_gpu <> next st ->
  gpudata temp_gpu = next st /\ next st2 = next st + 1 /\
  forall p, is_Some (mem st2 !! p)
            <-> (p = next st \/ is_Some (mem st !! p)) /\ p <> gpudata out_gpu.
Proof.
  intros Hdot Hfree Hne.
  destruct (dot_inv_mem _ _ _ _ _ Hdot) as (Hc & Hmem).
  destruct (dot_inv _ _ _ _ _ Hdot) as (_ & Hn & _).
  pose proof (dot_result_live _ _ _ _ _ Hdot) as Hlive.
  unfold free in Hfree. destruct (mem st1 !! gpudata out_gpu); [|discriminate Hfree].
  inversion Hfree; subst st2; clear Hfree. simpl.
  split; [exact Hc|]. split; [exact Hn|].
  intros p. destruct (decide (p = gpudata out_gpu)) as [->|Hp].
  - rewrite lookup_delete_eq. split; [intros [x Hx]; discriminate|tauto].
  - rewrite lookup_delete_ne by congruence.
    destruct (decide (p = next st)) as [->|Hp'].
    + tauto.
    + rewrite Hmem by exact Hp'. tauto.
Qed.

Lemma mdot_loop_live rest : forall out_gpu st r st',
  mdot_loop out_gpu rest st = (Ok r, st') ->
  well_formed st ->
  gpudata out_gpu < next st ->
  rest <> [] ->
  (next st <= gpudata r /\ well_formed st') /\
  forall p, is_Some (mem st' !! p)
            <-> p = gpudata r \/ (is_Some (mem st !! p) /\ p <> gpudata out_gpu).
Proof.
  induction rest as [|next_gpu rest IH]; intros out_gpu st r st' H Hwf Hout Hne;
    [contradiction|].
  simpl in H. inv_binds H.
  match goal with
  | E1 : dot _ _ _ = (Ok ?t, ?s1), E2 : free _ ?s1 = (Ok ?u, ?s2) |- _ =>
      destruct u;
      destruct (mdot_round _ _ _ _ _ _ E1 E2 ltac:(lia)) as (Ht & Hn & Hlive);
      rename t into temp_gpu; rename s2 into st2
  end.
  assert (Hwf2 : well_formed st2).
  { intros p x Hp. simpl. rewrite Hn.
    destruct (proj1 (Hlive p) (ex_intro _ x Hp)) as [[->|[y Hy]] _]; [lia|].
    apply Hwf in Hy. simpl in Hy. lia. }
  destruct rest as [|next_gpu' rest].
  - simpl in H. inversion H; subst r st'. rewrite Ht.
    split; [split; [lia|exact Hwf2]|].
    intros p. rewrite Hlive. split.
    + intros [[->|Hp] Hne']; auto.
    + intros [->|[Hp Hne']]; [|auto]. split; [auto|lia].
  - destruct (IH temp_gpu st2 r st' H Hwf2 ltac:(lia) ltac:(discriminate))
      as ([Hr Hwf'] & Hlive').
    split; [split; [lia|exact Hwf']|].
    intros p. rewrite Hlive', Hlive, Ht. split.
    + intros [->|[[[->|Hp] Hne1] Hne2]]; auto. contradiction.
    + intros [->|[Hp Hne1]]; [auto|]. right. split; [auto|].
      destruct Hp as [x Hx]. apply Hwf in Hx. simpl in Hx. lia.
Qed.

(** X12.  What [mdot] leaves allocated: after a call with two arguments or
    more returns, the live buffers are the result, which is new, and those
    that were live before except the buffer of the first argument; no
    intermediate product is left. *)
Theorem mdot_live_buffers a b rest st r st' :
  mdot (a :: b :: rest) st = (Ok r, st') ->
  well_formed st ->
  gpudata a < next st ->
  mem st !! gpudata r = None /\
  forall p, is_Some (mem st' !! p)
            <-> p = gpudata r \/ (is_Some (mem st !! p) /\ p <> gpudata a).
Proof.
  intros H Hwf Ha.
  destruct (mdot_loop_live (b :: rest) a st r st' H Hwf Ha ltac:(discriminate))
    as ([Hr _] & Hlive).
  split; [|exact Hlive].
  destruct (mem st !! gpudata r) as [l|] eqn:E; [|reflexivity].
  apply Hwf in E. simpl in E. lia.
Qed.

(** ** More on the decomposition *)

(** X13.  The shapes of what [svd] returns are those of its docstring:
    for an input of shape (m, n) with [k = min(m, n)], the first array is
    (m, m), or (m, k) without [full_matrices]; S is (k,); the third is
    (n, n), or (k, n).  Without [compute_uv] only S is returned. *)
Theorem svd_shapes a fm cuv st m n :
  svd_supported (dtype_of a) = true ->
  shape a = [m; n] ->
  live st a ->
  (dtype_of a = float32 -> gesvd_succeeds culaDeviceSgesvd) ->
  (dtype_of a = complex64 -> gesvd_succeeds culaDeviceCgesvd) ->
  exists r st',
    svd a fm cuv st = (Ok r, st') /\
    match r with
    | SvdTriple first second third =>
        cuv = true /\
        shape first = (if fm then [m; m] else [m; N.min m n]) /\
        shape second = [N.min m n] /\
        shape third = (if fm then [n; n] else [N.min m n; n])
    | SvdS s_gpu => cuv = false /\ shape s_gpu = [N.min m n]
    end.
Proof.
  intros Hd Hs Hl HS HC.
  destruct (svd_returns a fm cuv st m n Hd Hs Hl HS HC) as (r & st' & E & Hr & _).
  exists r, st'. split; [exact E|]. subst r.
  rewrite (N.min_comm n m). destruct cuv; simpl; auto.
Qed.

(** The run of [svd] on a matrix, up to the check of the status. *)
Lemma svd_run_state a fm cuv st rows cols a_buf status a' s' u' vt' :
  svd_supported (dtype_of a) = true ->
  shape a = [rows; cols] ->
  mem st !! gpudata a = Some a_buf ->
  gpudata a < next st ->
  svd_call (dtype_of a) rows cols fm cuv a_buf = (status, (a', s', u', vt')) ->
  exists r st',
    svd a fm cuv st
    = ((if Z.eqb status 0 then Ok r else Raise (culaError status)), st') /\
    mem st' !! gpudata a = Some a' /\
    (forall q, q < next st -> q <> gpudata a -> mem st' !! q = mem st !! q) /\
    (forall q, next st <= q < next st + 3 -> is_Some (mem st' !! q)) /\
    next st' = next st + 3.
Proof.
  intros Hd Hs Hm Hlt Hcall.
  destruct a as [p shp dt]. simpl in *. subst shp.
  unfold svd_call, cula_func_of in Hcall.
  exists (if cuv
          then SvdTriple
                 (mkGPUArray (next st + 1 + 1)
                    (if fm then [rows; rows] else [rows; N.min cols rows]) dt)
                 (mkGPUArray (next st) [N.min cols rows] float32)
                 (mkGPUArray (next st + 1)
                    (if fm then [cols; cols] else [N.min cols rows; cols]) dt)
          else SvdS (mkGPUArray (next st) [N.min cols rows] float32)).
  unfold svd; simpl.
  destruct dt; try discriminate Hd; simpl in *;
    destruct cuv, fm; simpl in *.
  all: eexists; split;
    [ do 5 (eapply run_bind; [run_exact|]; cbv beta iota; simpl);
      eapply run_bind; [run_exact|]; cbv beta;
      unfold culaCheckStatus; destruct (Z.eqb status 0); reflexivity
    | simpl ].
  all: split; [lookup_mem|].
  all: split; [intros q Hq Hne; now rewrite !lookup_insert_ne by lia|].
  all: split; [|lia].
  all: intros q Hq;
    destruct (decide (q = next st + 1 + 1)) as [->|H2];
      [rewrite lookup_insert_eq; eauto|rewrite lookup_insert_ne by lia];
    destruct (decide (q = next st + 1)) as [->|H1];
      [rewrite lookup_insert_eq; eauto|rewrite lookup_insert_ne by lia];
    replace q with (next st) by lia; rewrite lookup_insert_eq; eauto.
Qed.


(** X15.  A failure of CULA is passed on as it is: when the routine
    reports a status other than success, [svd] raises [culaError] with
    that status; the input has been overwritten by then and the three
    arrays stay allocated. *)
Theorem svd_passes_status_on a fm cuv st rows cols a_buf status a' s' u' vt' :
  svd_supported (dtype_of a) = true ->
  shape a = [rows; cols] ->
  mem st !! gpudata a = Some a_buf ->
  gpudata a < next st ->
  svd_call (dtype_of a) rows cols fm cuv a_buf = (status, (a', s', u', vt')) ->
  status <> 0%Z ->
  exists st',
    svd a fm cuv st = (Raise (culaError status), st') /\
    mem st' !! gpudata a = Some a' /\
    (forall q, next st <= q < next st + 3 -> is_Some (mem st' !! q)).
Proof.
  intros Hd Hs Hm Hlt Hcall Hstatus.
  destruct (svd_run_state a fm cuv st rows cols a_buf status a' s' u' vt'
              Hd Hs Hm Hlt Hcall) as (r & st' & E & Ha & _ & Hal & _).
  apply Z.eqb_neq in Hstatus. rewrite Hstatus in E. eauto.
Qed.

(** X16.  [svd] wants a matrix: on an array of a supported type whose
    shape does not have exactly two dimensions it raises [ValueError]
    before anything is allocated. *)
Theorem svd_wants_a_matrix a fm cuv st :
  svd_supported (dtype_of a) = true ->
  length (shape a) <> 2%nat ->
  svd a fm cuv st
  = (Raise (ValueError "wrong number of values to unpack"), st).
Proof.
  intros Hd Hlen. unfold svd.
  assert (Hrev : length (rev (shape a)) <> 2%nat) by now rewrite length_rev.
  destruct (dtype_of a); try discriminate Hd; simpl.
  all: unfold bind, ret; simpl.
  all: destruct (rev (shape a)) as [|x [|y [|z l]]]; simpl in *;
    try reflexivity; contradiction.
Qed.

(** ** More on transposition and on the diagonal matrix *)

(** X17.  [transpose] wants two dimensions: on an array of a supported
    type with fewer it raises [IndexError] before anything is compiled,
    allocated or launched. *)
Theorem transpose_wants_two_dimensions a dev st :
  supported (dtype_of a) = true ->
  (length (shape a) < 2)%nat ->
  transpose a dev st = (Raise (IndexError "tuple index out of range"), st).
Proof.
  intros Hd Hlen. unfold transpose. unfold supported in Hd. rewrite Hd.
  change (negb true) with false. cbv iota.
  unfold get_dev_attrs. destruct (select_block_grid_sizes dev (shape a)) as [block grid].
  unfold shape_at.
  destruct (shape a) as [|x [|y l]]; simpl in *; try lia; reflexivity.
Qed.

(** X18.  On a float32 or float64 vector [diag] changes no buffer but the
    one it allocates: its result is a new array of shape (k, k) and of the
    type of the vector, with k * k cells, and the vector and every other
    buffer hold what they held, whatever the launch geometry. *)
Theorem diag_allocates_a_square v_gpu dev st v :
  is_real (dtype_of v_gpu) = true ->
  mem st !! gpudata v_gpu = Some v ->
  gpudata v_gpu < next st ->
  exists d_gpu d st',
    diag v_gpu dev st = (Ok d_gpu, st') /\
    (shape d_gpu = [size v_gpu; size v_gpu] /\ dtype_of d_gpu = dtype_of v_gpu) /\
    gpudata d_gpu = next st /\
    mem st' !! gpudata d_gpu = Some d /\
    length d = N.to_nat (size v_gpu * size v_gpu) /\
    forall p, p <> gpudata d_gpu -> mem st' !! p = mem st !! p.
Proof.
  intros Hd Hm Hlt.
  eexists _, _, _. split; [apply (diag_run v_gpu dev st v Hd Hm Hlt)|].
  simpl. split; [split; reflexivity|]. split; [reflexivity|].
  split; [apply lookup_insert_eq|].
  split; [now rewrite diag_fold_length, length_replicate|].
  intros p Hp. now rewrite lookup_insert_ne by congruence.
Qed.


(** ** More on the pseudoinverse *)

(** X19.  [pinv] wants a matrix: on a float32 array whose shape does not
    have exactly two dimensions it raises the [ValueError] of [svd] with
    nothing asked of the device. *)
Theorem pinv_wants_a_matrix a dev st :
  dtype_of a = float32 ->
  length (shape a) <> 2%nat ->
  pinv a dev st
  = (Raise (ValueError "wrong number of values to unpack"), st).
Proof.
  intros Hd Hlen. unfold pinv, conj. rewrite Hd. simpl.
  eapply run_bind; [reflexivity|].
  apply bind_Raise. apply bind_Raise.
  unfold svd. rewrite Hd. simpl.
  assert (Hrev : length (rev (shape a)) <> 2%nat) by now rewrite length_rev.
  unfold bind, ret; simpl.
  destruct (rev (shape a)) as [|x [|y [|z l]]]; simpl in *;
    try reflexivity; contradiction.
Qed.

(** X20.  [pinv] conjugates its input in place before anything else, and
    an error met later does not undo it: on a complex64 array whose shape
    does not have exactly two dimensions, [pinv] raises the [ValueError] of
    [svd] and leaves the input conjugated. *)
Theorem pinv_conjugates_before_failing a dev st buf :
  dtype_of a = complex64 ->
  length (shape a) <> 2%nat ->
  mem st !! gpudata a = Some buf ->
  length buf = N.to_nat (size a) ->
  size a < 2 ^ 32 ->
  covered dev (shape a) (size a) = true ->
  all_distinct (launch_indices dev (select_block_grid_sizes dev (shape a))) = true ->
  exists st',
    pinv a dev st
    = (Raise (ValueError "wrong number of values to unpack"), st') /\
    mem st' !! gpudata a = Some (map cuConj buf).
Proof.
  intros Hd Hlen Hm Hbuf Hfit Hcov Hnd.
  assert (Hc : is_complex (dtype_of a) = true) by now rewrite Hd.
  pose proof (conj_run a dev st buf Hc Hm Hbuf Hfit Hcov Hnd) as E.
  eexists. split.
  - unfold pinv. rewrite Hd. simpl.
    eapply run_bind; [exact E|].
    apply bind_Raise. apply bind_Raise.
    unfold svd. rewrite Hd. simpl.
    assert (Hrev : length (rev (shape a)) <> 2%nat) by now rewrite length_rev.
    unfold bind, ret; simpl.
    destruct (rev (shape a)) as [|x [|y [|z l]]]; simpl in *;
      try reflexivity; contradiction.
  - simpl. apply lookup_insert_eq.
Qed.

(** X22.  When [pinv] raises it has released nothing: on any input, what
    was allocated before the call is still allocated, and so is every
    array [pinv] allocated before the error. *)
Theorem pinv_raise_releases_nothing a dev st e st' :
  pinv a dev st = (Raise e, st') -> keeps st st'.
Proof.
  intros H. unfold pinv in H.
  destruct (negb _); [inversion H; subst; apply keeps_refl|].
  revert H.
  repeat (apply raises_keeps_bind;
          [ solve [repeat quiet_step]
          | intros ? ?;
            repeat match goal with
                   | x : (_ * _)%type |- _ => destruct x
                   end;
            cbv beta iota ]).
  intros H.
  match type of H with
  | bind (reclaim_all ?l) _ ?s = _ =>
      destruct (reclaim_all_returns l s) as (st9 & E);
      rewrite (bind_Ok _ _ _ _ _ E) in H; discriminate H
  end.
Qed.

End Facts.

(** * The properties on the concrete device *)

#[local] Existing Instance ieee.
#[local] Existing Instance Fixture.backend.

Import Fixture.

(** ** The geometry of the concrete device reaches every cell *)

Lemma In_range3 i j k x y z :
  i < x -> j < y -> k < z -> In (i, j, k) (range3 (x, y, z)).
Proof.
  intros Hi Hj Hk. unfold range3.
  apply in_flat_map. exists k. split; [now apply In_Nrange|].
  apply in_flat_map. exists j. split; [now apply In_Nrange|].
  apply in_map_iff. exists i. split; [reflexivity|now apply In_Nrange].
Qed.

Lemma In_grid_threads b t block grid :
  In b (range3 grid) -> In t (range3 block) ->
  In (mkThread b t) (grid_threads block grid).
Proof.
  intros Hb Ht. unfold grid_threads.
  apply in_flat_map. exists b. split; [exact Hb|].
  apply in_map_iff. exists t. split; [reflexivity|exact Ht].
Qed.

(** The grid [select] chooses for a shape has a thread for every index
    below the element count of the shape. *)
Lemma select_reaches dev data_shape idx :
  0 < max_threads_per_block dev ->
  0 < max3 (max_grid_dim dev) ->
  fold_right N.mul 1 data_shape < 2 ^ 32 ->
  idx < fold_right N.mul 1 data_shape ->
  In idx (launch_indices dev (select dev data_shape)).
Proof.
  intros Ht Hg Hfit Hidx. unfold launch_indices, select.
  set (count := fold_right N.mul 1 data_shape) in *.
  set (mtpb := max_threads_per_block dev) in *.
  set (mbpg := max3 (max_grid_dim dev)) in *.
  assert (Hb : idx / mtpb <= count / mtpb) by (apply N.Div0.div_le_mono; lia).
  pose proof (N.div_mod idx mtpb ltac:(lia)) as Hdm.
  pose proof (N.mod_lt idx mtpb ltac:(lia)) as Hml.
  destruct (count / mtpb + 1 <? mbpg) eqn:Hrow; simpl; apply in_map_iff.
  - exists (mkThread (idx / mtpb, 0, 0) (idx mod mtpb, 0, 0)). split.
    + unfold thread_idx. simpl. rewrite u32_small by lia. lia.
    + apply In_grid_threads; apply In_range3; lia.
  - pose proof (N.div_mod (idx / mtpb) mbpg ltac:(lia)) as Hdm2.
    pose proof (N.mod_lt (idx / mtpb) mbpg ltac:(lia)) as Hml2.
    exists (mkThread ((idx / mtpb) mod mbpg, idx / mtpb / mbpg, 0) (idx mod mtpb, 0, 0)).
    split.
    + unfold thread_idx. simpl. rewrite u32_small by nia. nia.
    + apply In_grid_threads; apply In_range3; try lia.
      assert (idx / mtpb / mbpg <= (count / mtpb + 1) / mbpg)
        by (apply N.Div0.div_le_mono; lia).
      lia.
Qed.

Lemma select_covered dev data_shape :
  0 < max_threads_per_block dev ->
  0 < max3 (max_grid_dim dev) ->
  fold_right N.mul 1 data_shape < 2 ^ 32 ->
  covered dev data_shape (fold_right N.mul 1 data_shape) = true.
Proof.
  intros Ht Hg Hfit. unfold covered. apply forallb_forall. intros idx Hin.
  apply existsb_exists. exists idx. split; [|apply N.eqb_refl].
  apply (select_reaches dev data_shape idx Ht Hg Hfit).
  unfold Nrange in Hin. apply in_map_iff in Hin. destruct Hin as (i & <- & Hi).
  apply in_seq in Hi. lia.
Qed.

(** ** The claims at concrete inputs *)

(** C1 on the 1 x 1 complex64 matrix [[1j]]. *)
Lemma pinv_complex64_raises_witness :
  exists st',
    pinv (mkGPUArray 0 [1; 1] complex64) dev (one_buffer [Cx 0 1]%float)
    = (Raise (ValueError "unsupported combination of input types"), st').
Proof.
  apply (pinv_complex64_raises _ _ _ 1 1).
  - reflexivity.
  - reflexivity.
  - vm_compute. eauto.
  - intros jobu jobvt m n a lda ldu ldvt. reflexivity.
Defined.

(** C2 is false on the 1 x 1 float32 matrix [[0]]: its one singular value
    is 0, and [pinv] returns; the result holds the reciprocal of 0. *)
Lemma pinv_zero_singular_value_returns :
  (fst (svd (mkGPUArray 0 [1; 1] float32) false true (one_buffer (reals [0%float])))
   = Ok (SvdTriple (mkGPUArray 3 [1; 1] float32) (mkGPUArray 1 [1] float32)
                   (mkGPUArray 2 [1; 1] float32)) /\
   mem (snd (svd (mkGPUArray 0 [1; 1] float32) false true (one_buffer (reals [0%float]))))
       !! 1 = Some [Re 0%float]) /\
  fst (pinv (mkGPUArray 0 [1; 1] float32) dev (one_buffer (reals [0%float])))
  = Ok (mkGPUArray 8 [1; 1] float32) /\
  mem (snd (pinv (mkGPUArray 0 [1; 1] float32) dev (one_buffer (reals [0%float]))))
      !! 8 = Some [Re infinity].
Proof. vm_compute. repeat split. Qed.

(** C2, as the code has it, on the same matrix. *)
Lemma pinv_float32_returns_witness :
  exists a_inv st',
    pinv (mkGPUArray 0 [1; 1] float32) dev (one_buffer (reals [0%float]))
    = (Ok a_inv, st') /\
    shape a_inv = [1; 1] /\ dtype_of a_inv = float32 /\ live st' a_inv.
Proof.
  apply (pinv_float32_returns _ _ _ 1 1).
  - reflexivity.
  - reflexivity.
  - vm_compute. eauto.
  - intros jobu jobvt m n a lda ldu ldvt. reflexivity.
  - intros tb ta m n k alpha b lda a ldb beta c ldc. reflexivity.
Defined.

(** C3 on the product of [[2]] and [[3]]: the buffer of [[2]], at address
    0, is freed. *)
Lemma mdot_frees_first_input_witness :
  exists evs,
    trace (snd (mdot [mkGPUArray 0 [1; 1] float32; mkGPUArray 1 [1; 1] float32]
                     (two_buffers (reals [2%float]) (reals [3%float]))))
    = trace (two_buffers (reals [2%float]) (reals [3%float])) ++ evs /\
    In (EvFree 0) evs.
Proof.
  apply (mdot_frees_first_input (mkGPUArray 0 [1; 1] float32)
           (mkGPUArray 1 [1; 1] float32) [] _ (mkGPUArray 2 [1; 1] float32)).
  vm_compute. reflexivity.
Defined.

(** After that product the first argument points at no live buffer. *)
Lemma mdot_first_input_is_gone :
  fst (mdot [mkGPUArray 0 [1; 1] float32; mkGPUArray 1 [1; 1] float32]
            (two_buffers (reals [2%float]) (reals [3%float])))
  = Ok (mkGPUArray 2 [1; 1] float32) /\
  mem (snd (mdot [mkGPUArray 0 [1; 1] float32; mkGPUArray 1 [1; 1] float32]
                 (two_buffers (reals [2%float]) (reals [3%float])))) !! 0 = None.
Proof. vm_compute. split; reflexivity. Qed.


(** C5 is false of [mdot]: with a single int32 argument it returns the
    argument, and with an int32 third argument it raises only after the
    first product was computed and the buffer of the first argument
    freed. *)
Lemma mdot_does_not_check_types :
  mdot [mkGPUArray 0 [1; 1] int32] (one_buffer (reals [1%float]))
  = (Ok (mkGPUArray 0 [1; 1] int32), one_buffer (reals [1%float])) /\
  fst (mdot [mkGPUArray 0 [1; 1] float32; mkGPUArray 1 [1; 1] float32;
             mkGPUArray 2 [1; 1] int32]
            (mkState (<[2 := reals [1%float]]> (mem (two_buffers (reals [2%float]) (reals [3%float]))))
                     3 []))
  = Raise (ValueError "unsupported combination of input types") /\
  trace (snd (mdot [mkGPUArray 0 [1; 1] float32; mkGPUArray 1 [1; 1] float32;
                    mkGPUArray 2 [1; 1] int32]
                   (mkState (<[2 := reals [1%float]]> (mem (two_buffers (reals [2%float]) (reals [3%float]))))
                            3 [])))
  = [EvAlloc 3 1; EvCall "gemm"; EvFree 0].
Proof. vm_compute. repeat split. Qed.

(** C5, as the code has it, on an int32 matrix given to [transpose]. *)
Lemma unsupported_type_rejected_witness :
  transpose (mkGPUArray 0 [1; 1] int32) dev (one_buffer (reals [1%float]))
  = (Raise (ValueError "unrecognized type"), one_buffer (reals [1%float])).
Proof.
  destruct (unsupported_type_rejected dev (one_buffer (reals [1%float])))
    as (_ & _ & _ & H & _).
  apply H. reflexivity.
Defined.

(** C6 on a 2 x 3 complex64 matrix. *)
Lemma transpose_is_hermitian_witness :
  exists at_gpu odata st',
    transpose (mkGPUArray 0 [2; 3] complex64) dev
              (one_buffer [Cx 1 2; Cx 3 4; Cx 5 6; Cx 7 8; Cx 9 10; Cx 11 12]%float)
    = (Ok at_gpu, st') /\
    (shape at_gpu = [3; 2] /\ dtype_of at_gpu = complex64) /\
    (forall p, p <> gpudata at_gpu ->
       mem st' !! p
       = mem (one_buffer [Cx 1 2; Cx 3 4; Cx 5 6; Cx 7 8; Cx 9 10; Cx 11 12]%float) !! p) /\
    gpudata at_gpu <> 0 /\
    mem st' !! gpudata at_gpu = Some odata /\
    length odata = 6%nat /\
    forall i j, i < 2 -> j < 3 ->
      odata !! N.to_nat (j * 2 + i)
      = cuConj <$> [Cx 1 2; Cx 3 4; Cx 5 6; Cx 7 8; Cx 9 10; Cx 11 12]%float
                   !! N.to_nat (i * 3 + j).
Proof.
  apply (transpose_is_hermitian (mkGPUArray 0 [2; 3] complex64) dev _ 2 3).
  - reflexivity.
  - reflexivity.
  - reflexivity.
  - reflexivity.
  - reflexivity.
  - reflexivity.
  - vm_compute. reflexivity.
Defined.

(** C7 is false on the 1 x 1 float32 matrix [[2]]: [pinv] returns the
    array at address 8, and the log of the run has no release before the
    last product.  U^H, at address 4, is consumed by the first product and
    freed only after the second, with the six other intermediate arrays. *)
Lemma pinv_holds_intermediates_to_the_end :
  fst (pinv (mkGPUArray 0 [1; 1] float32) dev (one_buffer (reals [2%float])))
  = Ok (mkGPUArray 8 [1; 1] float32) /\
  trace (snd (pinv (mkGPUArray 0 [1; 1] float32) dev (one_buffer (reals [2%float]))))
  = [EvAlloc 1 1; EvAlloc 2 1; EvAlloc 3 1; EvCall "gesvd";
     EvCompile "transpose"; EvAlloc 4 1; EvLaunch "transpose" (512, 1, 1) (1, 1, 1);
     EvCall "pow";
     EvCompile "diag"; EvAlloc 5 1; EvLaunch "diag" (512, 1, 1) (1, 1, 1);
     EvCompile "transpose"; EvAlloc 6 1; EvLaunch "transpose" (512, 1, 1) (1, 1, 1);
     EvAlloc 7 1; EvCall "gemm";
     EvAlloc 8 1; EvCall "gemm";
     EvFree 3; EvFree 1; EvFree 2; EvFree 4; EvFree 5; EvFree 6; EvFree 7].
Proof. vm_compute. split; reflexivity. Qed.

Lemma one_buffer_well_formed l : well_formed (one_buffer l).
Proof.
  intros p x Hp. unfold one_buffer in *. simpl in *.
  apply lookup_singleton_Some in Hp as [<- _]. lia.
Qed.

(** C7, as the code has it, on the same matrix: after the call the input,
    at address 0, and the result, at address 8, are what is allocated. *)
Lemma pinv_releases_at_return_witness :
  (exists evs,
     trace (snd (pinv (mkGPUArray 0 [1; 1] float32) dev (one_buffer (reals [2%float]))))
     = trace (one_buffer (reals [2%float])) ++ evs ++ [EvCall "gemm"]
       ++ map EvFree (pinv_locals 1) /\
     Forall (fun e => is_free e = false) evs) /\
  (forall q,
     is_Some (mem (snd (pinv (mkGPUArray 0 [1; 1] float32) dev
                             (one_buffer (reals [2%float])))) !! q)
     <-> q = 8 \/ is_Some (mem (one_buffer (reals [2%float])) !! q)).
Proof.
  apply (pinv_releases_at_return (mkGPUArray 0 [1; 1] float32) dev
           (one_buffer (reals [2%float])) (mkGPUArray 8 [1; 1] float32)).
  - apply one_buffer_well_formed.
  - vm_compute. reflexivity.
Defined.

(** C8 on a vector of 23 ones: the grid for 23 cells is one block of 512
    threads, the matrix has 529 cells, and the last of them, on the
    diagonal, is never written. *)
Lemma diag_leaves_unreached_cells_witness :
  exists d_gpu d st',
    diag (mkGPUArray 0 [23] float32) dev (one_buffer (reals (replicate 23 1%float)))
    = (Ok d_gpu, st') /\
    shape d_gpu = [23; 23] /\
    mem st' !! gpudata d_gpu = Some d /\
    d !! N.to_nat 528 = Some Undef.
Proof.
  apply (diag_leaves_unreached_cells (mkGPUArray 0 [23] float32) dev
           (one_buffer (reals (replicate 23 1%float))) (reals (replicate 23 1%float)) 528).
  - reflexivity.
  - reflexivity.
  - reflexivity.
  - reflexivity.
  - vm_compute. reflexivity.
Defined.

(** C9 on a 1 x 2 float32 matrix. *)
Lemma conj_real_is_noop_witness :
  conj (mkGPUArray 0 [1; 2] float32) dev (one_buffer (reals [1; 2]%float))
  = (Ok tt, one_buffer (reals [1; 2]%float)).
Proof. apply conj_real_is_noop. reflexivity. Defined.

(** C10 on the 1 x 1 complex64 matrix [[1j]]. *)
Lemma svd_singular_values_float32_witness :
  exists r st',
    svd (mkGPUArray 0 [1; 1] complex64) false true (one_buffer [Cx 0 1]%float)
    = (Ok r, st') /\
    dtype_of (singular_values r) = float32.
Proof.
  apply (svd_singular_values_float32 _ _ _ _ 1 1).
  - reflexivity.
  - reflexivity.
  - vm_compute. eauto.
  - intros _ jobu jobvt m n a lda ldu ldvt. reflexivity.
  - intros _ jobu jobvt m n a lda ldu ldvt. reflexivity.
Defined.

(** ** The further properties at concrete inputs *)

Lemma lookup_Nrange n i :
  (i < N.to_nat n)%nat -> Nrange n !! i = Some (N.of_nat i).
Proof.
  intros H. unfold Nrange.
  change (map N.of_nat (seq 0 (N.to_nat n))) with (N.of_nat <$> seq 0 (N.to_nat n)).
  rewrite list_lookup_fmap, lookup_seq_lt by exact H. reflexivity.
Qed.

(** The reference [gemm] computes what BLAS documents. *)
Lemma gemm_fixture_computes complex :
  gemm_computes eadd emul complex (gemm complex).
Proof.
  intros m n k alpha A lda B ldb C ldc Hm Hlen. unfold gemm. simpl. split.
  - rewrite length_map. unfold Nrange. rewrite length_map, length_seq. lia.
  - intros i j Hi Hj.
    match goal with |- map ?f ?l !! ?p = _ => change (map f l) with (f <$> l) end.
    rewrite list_lookup_fmap, lookup_Nrange by nia. simpl.
    rewrite N2Nat.id.
    assert (Hmod : (j * ldc + i) mod ldc = i)
      by (rewrite N.add_comm, N.Div0.mod_add; apply N.mod_small; lia).
    assert (Hdiv : (j * ldc + i) / ldc = j)
      by (rewrite N.add_comm, N.div_add by lia; rewrite N.div_small by lia; lia).
    rewrite Hmod, Hdiv. unfold inner_product, zero_of. destruct complex; reflexivity.
Qed.

Lemma two_buffers_well_formed l1 l2 : well_formed (two_buffers l1 l2).
Proof.
  intros p l Hp. unfold two_buffers in *. simpl in *.
  apply lookup_insert_Some in Hp as [[<- _]|[_ Hp]]; [lia|].
  apply lookup_singleton_Some in Hp as [<- _]. lia.
Qed.

Lemma three_buffers_well_formed l1 l2 l3 : well_formed (three_buffers l1 l2 l3).
Proof.
  intros p l Hp. unfold three_buffers in *. simpl in *.
  apply lookup_insert_Some in Hp as [[<- _]|[_ Hp]]; [lia|].
  apply lookup_insert_Some in Hp as [[<- _]|[_ Hp]]; [lia|].
  apply lookup_singleton_Some in Hp as [<- _]. lia.
Qed.

(** X1 on the vector of the docstring, whose 36 cells one block reaches. *)
Lemma diag_when_covered_witness :
  exists d_gpu d st',
    diag (mkGPUArray 0 [6] float32) dev (one_buffer (reals [1; 2; 3; 4; 5; 6]%float))
    = (Ok d_gpu, st') /\
    mem st' !! gpudata d_gpu = Some d /\
    forall i j, i < 6 -> j < 6 ->
      d !! N.to_nat (i * 6 + j)
      = Some (if i =? j then reals [1; 2; 3; 4; 5; 6]%float !!! N.to_nat i
              else Re 0%float).
Proof.
  apply (diag_when_covered (mkGPUArray 0 [6] float32) dev
           (one_buffer (reals [1; 2; 3; 4; 5; 6]%float))
           (reals [1; 2; 3; 4; 5; 6]%float)).
  - reflexivity.
  - reflexivity.
  - simpl. lia.
  - vm_compute. reflexivity.
  - vm_compute. reflexivity.
Defined.

(** X2 on the product of [[1, 2], [3, 4]] and [[5], [6]]. *)
Lemma dot_is_row_major_product_witness :
  exists c_gpu c st',
    dot (mkGPUArray 0 [2; 2] float32) (mkGPUArray 1 [2; 1] float32)
        (two_buffers (reals [1; 2; 3; 4]%float) (reals [5; 6]%float))
    = (Ok c_gpu, st') /\
    (shape c_gpu = [2; 1] /\ dtype_of c_gpu = float32) /\
    mem st' !! gpudata c_gpu = Some c /\
    forall i j, i < 2 -> j < 1 ->
      c !! N.to_nat (i * 1 + j)
      = Some (emul (Re 1%float)
                (inner_product eadd emul (Re 0%float) 2
                   (fun l => reals [5; 6]%float !!! N.to_nat (l * 1 + j))
                   (fun l => reals [1; 2; 3; 4]%float !!! N.to_nat (i * 2 + l)))).
Proof.
  apply (dot_is_row_major_product eadd emul
           (mkGPUArray 0 [2; 2] float32) (mkGPUArray 1 [2; 1] float32)
           (two_buffers (reals [1; 2; 3; 4]%float) (reals [5; 6]%float))
           2 2 1 (reals [1; 2; 3; 4]%float) (reals [5; 6]%float)).
  - reflexivity.
  - reflexivity.
  - reflexivity.
  - reflexivity.
  - reflexivity.
  - reflexivity.
  - simpl. lia.
  - simpl. lia.
  - apply (gemm_fixture_computes false).
  - reflexivity.
Defined.

(** X3 on the same product: the result is at address 2, which was free. *)
Lemma dot_leaves_operands_witness :
  mem (two_buffers (reals [1; 2; 3; 4]%float) (reals [5; 6]%float))
      !! gpudata (mkGPUArray 2 [2; 1] float32) = None /\
  is_Some (mem (snd (dot (mkGPUArray 0 [2; 2] float32) (mkGPUArray 1 [2; 1] float32)
                         (two_buffers (reals [1; 2; 3; 4]%float) (reals [5; 6]%float))))
               !! gpudata (mkGPUArray 2 [2; 1] float32)) /\
  forall p, p <> gpudata (mkGPUArray 2 [2; 1] float32) ->
    mem (snd (dot (mkGPUArray 0 [2; 2] float32) (mkGPUArray 1 [2; 1] float32)
                  (two_buffers (reals [1; 2; 3; 4]%float) (reals [5; 6]%float)))) !! p
    = mem (two_buffers (reals [1; 2; 3; 4]%float) (reals [5; 6]%float)) !! p.
Proof.
  apply (dot_leaves_operands (mkGPUArray 0 [2; 2] float32) (mkGPUArray 1 [2; 1] float32)
           (two_buffers (reals [1; 2; 3; 4]%float) (reals [5; 6]%float))
           (mkGPUArray 2 [2; 1] float32)).
  - apply two_buffers_well_formed.
  - vm_compute. reflexivity.
Defined.

(** X4 on a float32 and a float64 matrix. *)
Lemma dot_type_check_witness :
  dot (mkGPUArray 0 [1; 1] float32) (mkGPUArray 1 [1; 1] float64)
      (two_buffers (reals [2%float]) (reals [3%float]))
  = (Raise (ValueError "unsupported combination of input types"),
     two_buffers (reals [2%float]) (reals [3%float])).
Proof.
  apply dot_type_check. vm_compute. reflexivity.
Defined.

(** X5 on a matrix and a vector. *)
Lemma dot_wants_two_dimensions_witness :
  dot (mkGPUArray 0 [1; 1] float32) (mkGPUArray 1 [1] float32)
      (two_buffers (reals [2%float]) (reals [3%float]))
  = (Raise (IndexError "tuple index out of range"),
     two_buffers (reals [2%float]) (reals [3%float])).
Proof.
  apply dot_wants_two_dimensions.
  - reflexivity.
  - reflexivity.
  - left. simpl. lia.
Defined.

(** X6 with a CUBLAS that leaves status 13. *)
Lemma dot_passes_status_on_witness :
  exists st',
    @dot ieee failing (mkGPUArray 0 [1; 1] float32) (mkGPUArray 1 [1; 1] float32)
         (two_buffers (reals [2%float]) (reals [3%float]))
    = (Raise (cublasError 13), st') /\
    is_Some (mem st' !! 2) /\ next st' = 3.
Proof.
  apply (@dot_passes_status_on ieee failing
           (mkGPUArray 0 [1; 1] float32) (mkGPUArray 1 [1; 1] float32)
           (two_buffers (reals [2%float]) (reals [3%float]))
           1 1 1 1 (reals [2%float]) (reals [3%float])).
  - reflexivity.
  - reflexivity.
  - reflexivity.
  - reflexivity.
  - reflexivity.
  - reflexivity.
  - simpl. lia.
  - simpl. lia.
  - vm_compute. discriminate.
Defined.

(** X7 on a 1 x 2 and a 1 x 1 matrix, whose inner dimensions differ. *)
Lemma dot_ignores_inner_dimensions_witness :
  exists c_gpu st',
    dot (mkGPUArray 0 [1; 2] float32) (mkGPUArray 1 [1; 1] float32)
        (two_buffers (reals [1; 2]%float) (reals [5%float]))
    = (Ok c_gpu, st') /\
    shape c_gpu = [1; 1] /\
    mem st' !! gpudata c_gpu = Some (reals [5%float]) /\
    trace st' = [EvAlloc 2 1; EvCall "gemm"].
Proof.
  refine (dot_ignores_inner_dimensions
            (mkGPUArray 0 [1; 2] float32) (mkGPUArray 1 [1; 1] float32)
            (two_buffers (reals [1; 2]%float) (reals [5%float]))
            1 2 1 1 (reals [1; 2]%float) (reals [5%float]) _ _ _ _ _ _ _ _ _).
  - reflexivity.
  - reflexivity.
  - reflexivity.
  - reflexivity.
  - reflexivity.
  - reflexivity.
  - simpl. lia.
  - simpl. lia.
  - reflexivity.
Defined.

(** X8 on a 2 x 2 complex64 matrix. *)
Lemma conj_conjugates_in_place_witness :
  exists st',
    conj (mkGPUArray 0 [2; 2] complex64) dev
         (one_buffer (complexes [(1, 2); (3, 4); (5, 6); (7, 8)]%float))
    = (Ok tt, st') /\
    mem st' !! 0 = Some (map cuConj (complexes [(1, 2); (3, 4); (5, 6); (7, 8)]%float)) /\
    (forall p, p <> 0 ->
       mem st' !! p = mem (one_buffer (complexes [(1, 2); (3, 4); (5, 6); (7, 8)]%float)) !! p) /\
    next st' = 1.
Proof.
  apply (conj_conjugates_in_place (mkGPUArray 0 [2; 2] complex64) dev
           (one_buffer (complexes [(1, 2); (3, 4); (5, 6); (7, 8)]%float))
           (complexes [(1, 2); (3, 4); (5, 6); (7, 8)]%float)).
  - reflexivity.
  - reflexivity.
  - reflexivity.
  - vm_compute. reflexivity.
  - vm_compute. reflexivity.
  - vm_compute. reflexivity.
Defined.

(** X9 on the same matrix. *)
Lemma conj_twice_restores_witness :
  exists st1 st2,
    conj (mkGPUArray 0 [2; 2] complex64) dev
         (one_buffer (complexes [(1, 2); (3, 4); (5, 6); (7, 8)]%float)) = (Ok tt, st1) /\
    conj (mkGPUArray 0 [2; 2] complex64) dev st1 = (Ok tt, st2) /\
    mem st2 = mem (one_buffer (complexes [(1, 2); (3, 4); (5, 6); (7, 8)]%float)).
Proof.
  apply (conj_twice_restores (mkGPUArray 0 [2; 2] complex64) dev
           (one_buffer (complexes [(1, 2); (3, 4); (5, 6); (7, 8)]%float))
           (complexes [(1, 2); (3, 4); (5, 6); (7, 8)]%float)).
  - reflexivity.
  - reflexivity.
  - reflexivity.
  - vm_compute. reflexivity.
  - vm_compute. reflexivity.
  - vm_compute. reflexivity.
  - repeat constructor.
Defined.

(** X10 on a 2 x 3 complex64 matrix. *)
Lemma transpose_twice_restores_witness :
  exists at_gpu att_gpu st1 st2,
    transpose (mkGPUArray 0 [2; 3] complex64) dev
              (one_buffer (complexes [(1, 2); (3, 4); (5, 6); (7, 8); (9, 10); (11, 12)]%float))
    = (Ok at_gpu, st1) /\
    transpose at_gpu dev st1 = (Ok att_gpu, st2) /\
    (shape att_gpu = [2; 3] /\ dtype_of att_gpu = complex64) /\
    mem st2 !! gpudata att_gpu
    = Some (complexes [(1, 2); (3, 4); (5, 6); (7, 8); (9, 10); (11, 12)]%float) /\
    mem st2 !! 0 = Some (complexes [(1, 2); (3, 4); (5, 6); (7, 8); (9, 10); (11, 12)]%float).
Proof.
  apply (transpose_twice_restores (mkGPUArray 0 [2; 3] complex64) dev
           (one_buffer (complexes [(1, 2); (3, 4); (5, 6); (7, 8); (9, 10); (11, 12)]%float))
           2 3 (complexes [(1, 2); (3, 4); (5, 6); (7, 8); (9, 10); (11, 12)]%float)).
  - reflexivity.
  - reflexivity.
  - vm_compute. reflexivity.
  - reflexivity.
  - reflexivity.
  - simpl. lia.
  - vm_compute. reflexivity.
  - vm_compute. reflexivity.
  - intros _. repeat constructor.
Defined.

(** X11 on the product of [[2]], [[3]] and [[4]]: two rounds, the products
    at addresses 3 and 4. *)
Lemma mdot_log_witness :
  exists cells,
    length cells = 2%nat /\
    trace (snd (mdot [mkGPUArray 0 [1; 1] float32; mkGPUArray 1 [1; 1] float32;
                      mkGPUArray 2 [1; 1] float32]
                     (three_buffers (reals [2%float]) (reals [3%float]) (reals [4%float]))))
    = trace (three_buffers (reals [2%float]) (reals [3%float]) (reals [4%float]))
      ++ rounds 0 3 cells.
Proof.
  apply (mdot_log (mkGPUArray 0 [1; 1] float32)
           [mkGPUArray 1 [1; 1] float32; mkGPUArray 2 [1; 1] float32]
           (three_buffers (reals [2%float]) (reals [3%float]) (reals [4%float]))
           (mkGPUArray 4 [1; 1] float32)).
  vm_compute. reflexivity.
Defined.

(** X12 on the same product: the buffers left are those at 1, 2 and 4. *)
Lemma mdot_live_buffers_witness :
  mem (three_buffers (reals [2%float]) (reals [3%float]) (reals [4%float])) !! 4 = None /\
  forall p,
    is_Some (mem (snd (mdot [mkGPUArray 0 [1; 1] float32; mkGPUArray 1 [1; 1] float32;
                             mkGPUArray 2 [1; 1] float32]
                            (three_buffers (reals [2%float]) (reals [3%float])
                                           (reals [4%float])))) !! p)
    <-> p = 4 \/
        (is_Some (mem (three_buffers (reals [2%float]) (reals [3%float]) (reals [4%float]))
                      !! p) /\ p <> 0).
Proof.
  apply (mdot_live_buffers (mkGPUArray 0 [1; 1] float32) (mkGPUArray 1 [1; 1] float32)
           [mkGPUArray 2 [1; 1] float32]
           (three_buffers (reals [2%float]) (reals [3%float]) (reals [4%float]))
           (mkGPUArray 4 [1; 1] float32)).
  - vm_compute. reflexivity.
  - apply three_buffers_well_formed.
  - simpl. lia.
Defined.

(** X13 on the 1 x 2 matrix [[3, 0]] with full matrices. *)
Lemma svd_shapes_witness :
  exists r st',
    svd (mkGPUArray 0 [1; 2] float32) true true (one_buffer (reals [3; 0]%float))
    = (Ok r, st') /\
    match r with
    | SvdTriple first second third =>
        true = true /\ shape first = [1; 1] /\ shape second = [1] /\ shape third = [2; 2]
    | SvdS s_gpu => true = false /\ shape s_gpu = [1]
    end.
Proof.
  apply (svd_shapes (mkGPUArray 0 [1; 2] float32) true true
           (one_buffer (reals [3; 0]%float)) 1 2).
  - reflexivity.
  - reflexivity.
  - vm_compute. eauto.
  - intros _ jobu jobvt m n a lda ldu ldvt. reflexivity.
  - intros _ jobu jobvt m n a lda ldu ldvt. reflexivity.
Defined.


(** X15 with a CULA that reports status 7. *)
Lemma svd_passes_status_on_witness :
  exists st',
    @svd ieee failing (mkGPUArray 0 [1; 2] float32) true true
         (one_buffer (reals [3; 0]%float))
    = (Raise (culaError 7), st') /\
    mem st' !! 0 = Some (reals [3; 0]%float) /\
    (forall q, 1 <= q < 1 + 3 -> is_Some (mem st' !! q)).
Proof.
  eapply (@svd_passes_status_on ieee failing (mkGPUArray 0 [1; 2] float32) true true
            (one_buffer (reals [3; 0]%float)) 1 2
            (reals [3; 0]%float) 7%Z (reals [3; 0]%float)).
  - reflexivity.
  - reflexivity.
  - reflexivity.
  - simpl. lia.
  - vm_compute. reflexivity.
  - discriminate.
Defined.

(** X16 on a vector. *)
Lemma svd_wants_a_matrix_witness :
  svd (mkGPUArray 0 [2] float32) true true (one_buffer (reals [3; 0]%float))
  = (Raise (ValueError "wrong number of values to unpack"),
     one_buffer (reals [3; 0]%float)).
Proof.
  apply svd_wants_a_matrix.
  - reflexivity.
  - simpl. lia.
Defined.

(** X17 on a vector. *)
Lemma transpose_wants_two_dimensions_witness :
  transpose (mkGPUArray 0 [2] float32) dev (one_buffer (reals [3; 0]%float))
  = (Raise (IndexError "tuple index out of range"), one_buffer (reals [3; 0]%float)).
Proof.
  apply transpose_wants_two_dimensions.
  - reflexivity.
  - simpl. lia.
Defined.

(** X18 on a vector of three cells. *)
Lemma diag_allocates_a_square_witness :
  exists d_gpu d st',
    diag (mkGPUArray 0 [3] float32) dev (one_buffer (reals [1; 2; 3]%float))
    = (Ok d_gpu, st') /\
    (shape d_gpu = [3; 3] /\ dtype_of d_gpu = float32) /\
    gpudata d_gpu = 1 /\
    mem st' !! gpudata d_gpu = Some d /\
    length d = 9%nat /\
    forall p, p <> gpudata d_gpu ->
      mem st' !! p = mem (one_buffer (reals [1; 2; 3]%float)) !! p.
Proof.
  apply (diag_allocates_a_square (mkGPUArray 0 [3] float32) dev
           (one_buffer (reals [1; 2; 3]%float)) (reals [1; 2; 3]%float)).
  - reflexivity.
  - reflexivity.
  - simpl. lia.
Defined.

(** X19 on a float32 vector. *)
Lemma pinv_wants_a_matrix_witness :
  pinv (mkGPUArray 0 [2] float32) dev (one_buffer (reals [3; 0]%float))
  = (Raise (ValueError "wrong number of values to unpack"),
     one_buffer (reals [3; 0]%float)).
Proof.
  apply pinv_wants_a_matrix.
  - reflexivity.
  - simpl. lia.
Defined.

(** X20 on a complex64 vector. *)
Lemma pinv_conjugates_before_failing_witness :
  exists st',
    pinv (mkGPUArray 0 [2] complex64) dev (one_buffer (complexes [(1, 2); (3, 4)]%float))
    = (Raise (ValueError "wrong number of values to unpack"), st') /\
    mem st' !! 0 = Some (map cuConj (complexes [(1, 2); (3, 4)]%float)).
Proof.
  apply (pinv_conjugates_before_failing (mkGPUArray 0 [2] complex64) dev
           (one_buffer (complexes [(1, 2); (3, 4)]%float)) (complexes [(1, 2); (3, 4)]%float)).
  - reflexivity.
  - simpl. lia.
  - reflexivity.
  - reflexivity.
  - vm_compute. reflexivity.
  - vm_compute. reflexivity.
  - vm_compute. reflexivity.
Defined.


(** X22 on the 1 x 1 complex64 matrix [[1j]], on which [pinv] raises at its
    first product: the six arrays allocated by then stay allocated. *)
Lemma pinv_raise_releases_nothing_witness :
  keeps (one_buffer (complexes [(0, 1)]%float))
        (snd (pinv (mkGPUArray 0 [1; 1] complex64) dev
                   (one_buffer (complexes [(0, 1)]%float)))).
Proof.
  apply (pinv_raise_releases_nothing (mkGPUArray 0 [1; 1] complex64) dev
           (one_buffer (complexes [(0, 1)]%float))
           (ValueError "unsupported combination of input types")).
  vm_compute. reflexivity.
Defined.
